(** * FlowForge: the graph execution engine (app/engine)

    A shallow embedding of [app/engine/models.py], [app/engine/registry.py]
    and [app/engine/runner.py].

    Python objects live in a store: a dict or a list is a cell of the heap
    and a value that is not atomic is a reference to its cell, so that two
    names for one dict see each other's updates.  Functions that raise
    return [Raise e]; functions that update objects thread the store. *)

From Stdlib Require Import ZArith Ascii String.
From stdpp Require Import base option list gmap strings fin_maps.

Local Open Scope string_scope.
Local Open Scope Z_scope.
Local Open Scope list_scope.

(** ** Values and the store *)

Abbreviation loc := nat.

(** The values of a state map: [None], booleans, integers, strings and
    references to lists and dicts ([float] is left out). *)
Inductive val :=
  | VNone
  | VBool (b : bool)
  | VInt (n : Z)
  | VStr (s : string)
  | VRef (l : loc).

Inductive obj :=
  | ODict (d : gmap string val)
  | OList (xs : list val).

Abbreviation heap := (list obj).

#[global] Instance val_eq_dec : EqDecision val.
Proof. solve_decision. Defined.

#[global] Instance obj_eq_dec : EqDecision obj.
Proof. solve_decision. Defined.

(** Exceptions: the class and the message. *)
Inductive exn := Exn (cls : string) (msg : string).

Definition KeyError (msg : string) : exn := Exn "KeyError" msg.
Definition ValueError (msg : string) : exn := Exn "ValueError" msg.
Definition TypeError (msg : string) : exn := Exn "TypeError" msg.
Definition AttributeError (msg : string) : exn := Exn "AttributeError" msg.
Definition RecursionError : exn :=
  Exn "RecursionError" "maximum recursion depth exceeded".
(** A reference to no cell; no Python program can build one. *)
Definition SystemError : exn := Exn "SystemError" "dangling reference".

Inductive outcome (A : Type) :=
  | Ok (a : A)
  | Raise (e : exn).
Arguments Ok {A} a.
Arguments Raise {A} e.

Definition obind {A B} (x : outcome A) (f : A → outcome B) : outcome B :=
  match x with
  | Ok a => f a
  | Raise e => Raise e
  end.

Definition omap {A B} (f : A → B) (x : outcome A) : outcome B :=
  obind x (λ a, Ok (f a)).

(** The world a run acts on: the store and the wall clock. *)
Record world := World { w_heap : heap; w_time : Z }.

(** Computations that may update the world and may raise.  The world is
    returned in both cases: what was written before a raise stays written. *)
Definition M (A : Type) : Type := world → outcome A * world.

Definition ret {A} (a : A) : M A := λ w, (Ok a, w).
Definition raise {A} (e : exn) : M A := λ w, (Raise e, w).
Definition bind {A B} (m : M A) (f : A → M B) : M B :=
  λ w, match m w with
       | (Ok a, w') => f a w'
       | (Raise e, w') => (Raise e, w')
       end.

Notation "'let!' x := m 'in' k" := (bind m (λ x, k))
  (at level 10, x pattern, m at level 100, k at level 200).
Notation "'do!' m 'in' k" := (bind m (λ _, k))
  (at level 10, m at level 100, k at level 200).

(** Reading the store without changing it. *)
Definition reading {A} (f : heap → outcome A) : M A :=
  λ w, (f (w_heap w), w).

Definition with_heap (f : heap → heap) : M unit :=
  λ w, (Ok tt, World (f (w_heap w)) (w_time w)).

(** [{...}] and [[...]]: a new cell at the end of the store. *)
Definition alloc (o : obj) : M loc :=
  λ w, (Ok (length (w_heap w)),
        World (w_heap w ++ [o]) (w_time w)).

(** [d[k] = v] on the dict in cell [l]. *)
Definition setitem (l : loc) (k : string) (v : val) (h : heap) : heap :=
  match h !! l with
  | Some (ODict d) => <[l := ODict (<[k := v]> d)]> h
  | _ => h
  end.

(** [xs.append(v)] on the list in cell [l]. *)
Definition append (l : loc) (v : val) (h : heap) : heap :=
  match h !! l with
  | Some (OList xs) => <[l := OList (xs ++ [v])]> h
  | _ => h
  end.

(** [datetime.utcnow()]. *)
Definition utcnow : M Z := λ w, (Ok (w_time w), w).

(** [isinstance(v, dict)], with the dict's entries. *)
Definition as_dict (h : heap) (v : val) : option (gmap string val) :=
  match v with
  | VRef l => match h !! l with
              | Some (ODict d) => Some d
              | _ => None
              end
  | _ => None
  end.

(** [d.get(k)]: the value, or [None] for a key that is not there. *)
Definition dict_get (d : gmap string val) (k : string) : val :=
  default VNone (d !! k).

(** [type(v).__name__]. *)
Definition type_name (h : heap) (v : val) : string :=
  match v with
  | VNone => "NoneType"
  | VBool _ => "bool"
  | VInt _ => "int"
  | VStr _ => "str"
  | VRef l => match h !! l with
              | Some (ODict _) => "dict"
              | Some (OList _) => "list"
              | None => "object"
              end
  end.

(** ** Comparison of values *)

(** [bool] is a subclass of [int]: [True == 1] and [False == 0]. *)
Definition as_int (v : val) : option Z :=
  match v with
  | VBool b => Some (if b then 1 else 0)
  | VInt n => Some n
  | _ => None
  end.

Definition atom_eq (a b : val) : bool :=
  match a, b with
  | VNone, VNone => true
  | VStr s, VStr t => bool_decide (s = t)
  | _, _ => match as_int a, as_int b with
            | Some x, Some y => bool_decide (x = y)
            | _, _ => false
            end
  end.

(** All tests of a list pass, stopping at the first that fails or raises. *)
Fixpoint all_ok {A} (f : A → outcome bool) (xs : list A) : outcome bool :=
  match xs with
  | [] => Ok true
  | x :: rest =>
      match f x with
      | Ok true => all_ok f rest
      | r => r
      end
  end.

(** [a == b].  Lists are equal when they have the same length and equal
    items, dicts when they have the same keys with equal values; an item
    that is the same object as its counterpart is equal to it without
    being looked into.  [depth] is the nesting the interpreter's recursion
    limit allows. *)
Fixpoint py_eq (depth : nat) (h : heap) (a b : val) : outcome bool :=
  match a, b with
  | VRef la, VRef lb =>
      match h !! la, h !! lb with
      | Some oa, Some ob =>
          match depth with
          | O => Raise RecursionError
          | S depth' =>
              let item_eq (x y : val) :=
                if bool_decide (x = y) then Ok true else py_eq depth' h x y in
              match oa, ob with
              | OList xs, OList ys =>
                  if bool_decide (length xs = length ys)
                  then all_ok (λ p, item_eq p.1 p.2) (zip xs ys)
                  else Ok false
              | ODict da, ODict db =>
                  if bool_decide (size da = size db)
                  then all_ok (λ p, match db !! p.1 with
                                    | Some y => item_eq y p.2
                                    | None => Ok false
                                    end) (map_to_list da)
                  else Ok false
              | _, _ => Ok false
              end
          end
      | _, _ => Raise SystemError
      end
  | VRef _, _ | _, VRef _ => Ok false
  | _, _ => Ok (atom_eq a b)
  end.

Definition item_eq (depth : nat) (h : heap) (x y : val) : outcome bool :=
  if bool_decide (x = y) then Ok true else py_eq depth h x y.

Inductive order_op := OpLt | OpGt | OpLe | OpGe.

Definition op_symbol (op : order_op) : string :=
  match op with
  | OpLt => "<"
  | OpGt => ">"
  | OpLe => "<="
  | OpGe => ">="
  end.

Definition order_Z (op : order_op) (x y : Z) : bool :=
  match op with
  | OpLt => bool_decide (x < y)
  | OpGt => bool_decide (y < x)
  | OpLe => bool_decide (x ≤ y)
  | OpGe => bool_decide (y ≤ x)
  end.

Definition order_cmp (op : order_op) (c : comparison) : bool :=
  match op, c with
  | OpLt, Lt | OpGt, Gt => true
  | OpLe, (Lt | Eq) | OpGe, (Gt | Eq) => true
  | _, _ => false
  end.

Definition not_supported (h : heap) (op : order_op) (a b : val) : exn :=
  TypeError ("'" +:+ op_symbol op +:+ "' not supported between instances of '"
             +:+ type_name h a +:+ "' and '" +:+ type_name h b +:+ "'").

(** The first position at which two lists have different items. *)
Fixpoint first_diff (eq : val → val → outcome bool) (xs ys : list val)
  : outcome (option (val * val)) :=
  match xs, ys with
  | x :: xs', y :: ys' =>
      match eq x y with
      | Ok true => first_diff eq xs' ys'
      | Ok false => Ok (Some (x, y))
      | Raise e => Raise e
      end
  | _, _ => Ok None
  end.

(** [a < b], [a > b], [a <= b], [a >= b]: numbers by value, strings and
    lists lexicographically; anything else is a [TypeError]. *)
Fixpoint py_order (depth : nat) (h : heap) (op : order_op) (a b : val)
  : outcome bool :=
  match as_int a, as_int b with
  | Some x, Some y => Ok (order_Z op x y)
  | _, _ =>
      match a, b with
      | VStr s, VStr t => Ok (order_cmp op (String.compare s t))
      | VRef la, VRef lb =>
          match h !! la, h !! lb with
          | Some (OList xs), Some (OList ys) =>
              match depth with
              | O => Raise RecursionError
              | S depth' =>
                  match first_diff (item_eq depth' h) xs ys with
                  | Ok (Some (x, y)) => py_order depth' h op x y
                  | Ok None =>
                      Ok (order_Z op (Z.of_nat (length xs))
                                     (Z.of_nat (length ys)))
                  | Raise e => Raise e
                  end
              end
          | _, _ => Raise (not_supported h op a b)
          end
      | _, _ => Raise (not_supported h op a b)
      end
  end.

(** ** models.py *)

Inductive NodeType := COMPUTATION | TOOL.

Module NodeConfig.
Record t := mk {
  name : string;
  type : NodeType;
  tool_name : option string;
  description : option string;
}.
End NodeConfig.

Module EdgeConfig.
Record t := mk {
  source : string;
  target : string;
  condition_key : option string;
  operator : option string;
  value : val;
}.
End EdgeConfig.

Module Graph.
Record t := mk {
  id : string;
  name : option string;
  entrypoint : string;
  nodes : gmap string NodeConfig.t;
  edges : list EdgeConfig.t;
}.
End Graph.

Module StepLog.
Record t := mk {
  node : string;
  started_at : Z;
  finished_at : Z;
  state_diff : val;
  info : option string;
}.
End StepLog.

(** ** runner.py: conditions and edges *)

(** [key.split(".")]. *)
Fixpoint split_on (sep : ascii) (s : string) : list string :=
  match s with
  | EmptyString => [EmptyString]
  | String c rest =>
      if bool_decide (c = sep) then EmptyString :: split_on sep rest
      else match split_on sep rest with
           | p :: ps => String c p :: ps
           | [] => [String c EmptyString]
           end
  end.

(** The loop of [_get_from_state] over the parts of the key. *)
Fixpoint walk (h : heap) (value : val) (parts : list string) : val :=
  match parts with
  | [] => value
  | p :: rest =>
      match as_dict h value with
      | None => VNone
      | Some d => walk h (dict_get d p) rest
      end
  end.

Definition _get_from_state (h : heap) (state : val) (key : string) : val :=
  walk h state (split_on "." key).

Definition _compare (depth : nat) (h : heap)
    (lhs : val) (op : option string) (rhs : val) : outcome bool :=
  match op with
  | None => Ok true
  | Some o =>
      if bool_decide (o = "==") then py_eq depth h lhs rhs
      else if bool_decide (o = "!=") then omap negb (py_eq depth h lhs rhs)
      else if bool_decide (o = "<") then py_order depth h OpLt lhs rhs
      else if bool_decide (o = ">") then py_order depth h OpGt lhs rhs
      else if bool_decide (o = "<=") then py_order depth h OpLe lhs rhs
      else if bool_decide (o = ">=") then py_order depth h OpGe lhs rhs
      else Ok false
  end.

(** [if x:] for an optional string: [None] and the empty string are false. *)
Definition truthy (x : option string) : bool :=
  match x with
  | None => false
  | Some s => negb (bool_decide (s = ""))
  end.

(** The [for edge in candidates] loop of [choose_next_node]. *)
Fixpoint choose_from (depth : nat) (h : heap) (state : val)
    (candidates : list EdgeConfig.t) : outcome (option string) :=
  match candidates with
  | [] => Ok None
  | edge :: rest =>
      let selected :=
        if bool_decide (EdgeConfig.target edge = "__end__") then Ok None
        else Ok (Some (EdgeConfig.target edge)) in
      if truthy (EdgeConfig.condition_key edge) then
        let lhs := _get_from_state h state
                     (default "" (EdgeConfig.condition_key edge)) in
        match _compare depth h lhs (EdgeConfig.operator edge)
                (EdgeConfig.value edge) with
        | Ok true => selected
        | Ok false => choose_from depth h state rest
        | Raise e => Raise e
        end
      else selected
  end.

Definition choose_next_node (depth : nat) (h : heap)
    (graph : Graph.t) (current_node : string) (state : val)
  : outcome (option string) :=
  let candidates :=
    filter (λ e, EdgeConfig.source e = current_node) (Graph.edges graph) in
  choose_from depth h state candidates.

(** ** The store-updating part of the embedding *)

Definition lift {A} (x : outcome A) : M A := λ w, (x, w).

Fixpoint foldM {A B} (f : B → A → M B) (b : B) (xs : list A) : M B :=
  match xs with
  | [] => ret b
  | x :: rest => let! b' := f b x in foldM f b' rest
  end.

Definition for_each {A} (f : A → M unit) (xs : list A) : M unit :=
  foldM (λ _ x, f x) tt xs.

Definition deref (l : loc) : M obj :=
  reading (λ h, match h !! l with
                | Some o => Ok o
                | None => Raise SystemError
                end).

(** [copy.deepcopy(x, memo)] of the Python library: an atomic value is
    returned as it is; a dict or a list that [memo] has seen is answered
    from [memo]; otherwise an empty copy is created, entered into [memo]
    and filled with the copies of the items. *)
Fixpoint deepcopy_memo (depth : nat) (memo : gmap loc loc) (x : val)
  : M (val * gmap loc loc) :=
  match x with
  | VRef l =>
      match memo !! l with
      | Some y => ret (VRef y, memo)
      | None =>
          match depth with
          | O => raise RecursionError
          | S depth' =>
              let! o := deref l in
              match o with
              | ODict d =>
                  let! y := alloc (ODict ∅) in
                  let! memo' :=
                    foldM (λ memo kv,
                             let! r := deepcopy_memo depth' memo kv.2 in
                             do! with_heap (setitem y kv.1 r.1) in
                             ret r.2)
                          (<[l := y]> memo) (map_to_list d) in
                  ret (VRef y, memo')
              | OList xs =>
                  let! y := alloc (OList []) in
                  let! memo' :=
                    foldM (λ memo a,
                             let! r := deepcopy_memo depth' memo a in
                             do! with_heap (append y r.1) in
                             ret r.2)
                          (<[l := y]> memo) xs in
                  ret (VRef y, memo')
              end
          end
      end
  | _ => ret (x, memo)
  end.

Definition deepcopy (depth : nat) (x : val) : M val :=
  let! r := deepcopy_memo depth ∅ x in ret r.1.

(** ** registry.py *)

(** What a call of a registered function gives: a plain value, or a
    coroutine that has still to be awaited. *)
Inductive called :=
  | Plain (v : val)
  | Coroutine (c : M val).

(** A registered function: [def fn(state)], which may still return a
    coroutine, or [async def fn(state)]. *)
Inductive pyfun :=
  | Def (f : val → M called)
  | AsyncDef (f : val → M val).

Definition iscoroutinefunction (fn : pyfun) : bool :=
  match fn with
  | AsyncDef _ => true
  | Def _ => false
  end.

Module Registry.
Record t := mk {
  NODE_REGISTRY : gmap string pyfun;
  TOOL_REGISTRY : gmap string pyfun;
}.
End Registry.

Definition register_node (name : string) (fn : pyfun) (r : Registry.t)
  : Registry.t :=
  Registry.mk (<[name := fn]> (Registry.NODE_REGISTRY r))
              (Registry.TOOL_REGISTRY r).

Definition register_tool (name : string) (fn : pyfun) (r : Registry.t)
  : Registry.t :=
  Registry.mk (Registry.NODE_REGISTRY r)
              (<[name := fn]> (Registry.TOOL_REGISTRY r)).

Definition get_node (r : Registry.t) (name : string) : outcome pyfun :=
  match Registry.NODE_REGISTRY r !! name with
  | None => Raise (KeyError ("Node function '" +:+ name
                             +:+ "' is not registered"))
  | Some fn => Ok fn
  end.

Definition get_tool (r : Registry.t) (name : string) : outcome pyfun :=
  match Registry.TOOL_REGISTRY r !! name with
  | None => Raise (KeyError ("Tool '" +:+ name +:+ "' is not registered"))
  | Some fn => Ok fn
  end.

(** Awaiting a coroutine runs it to its end: one run is one sequence. *)
Definition call_maybe_async (fn : pyfun) (state : val) : M val :=
  let! result :=
    match fn with
    | AsyncDef f => f state
    | Def f =>
        let! result := f state in
        match result with
        | Coroutine c => c
        | Plain v => ret v
        end
    end in
  match result with
  | VNone => ret state
  | _ => ret result
  end.

(** ** runner.py: the diff, the nodes and the run *)

Definition no_attribute (h : heap) (v : val) (attr : string) : exn :=
  AttributeError ("'" +:+ type_name h v +:+ "' object has no attribute '"
                  +:+ attr +:+ "'").

(** [x.keys()]. *)
Definition keys (x : val) : M (gset string) :=
  reading (λ h, match as_dict h x with
                | Some d => Ok (dom d)
                | None => Raise (no_attribute h x "keys")
                end).

(** [x.get(k)]. *)
Definition get (x : val) (k : string) : M val :=
  reading (λ h, match as_dict h x with
                | Some d => Ok (dict_get d k)
                | None => Raise (no_attribute h x "get")
                end).

Definition compute_diff (depth : nat) (before after : val) : M val :=
  let! diff := alloc (ODict ∅) in
  let! kb := keys before in
  let! ka := keys after in
  let all_keys := kb ∪ ka in
  do! for_each (λ k,
        let! b := get before k in
        let! a := get after k in
        let! same := reading (λ h, py_eq depth h b a) in
        if negb same then
          let! b := get before k in
          let! a := get after k in
          let! entry := alloc (ODict (<["before" := b]> (<["after" := a]> ∅))) in
          with_heap (setitem diff k (VRef entry))
        else ret tt)
      (elements all_keys) in
  ret (VRef diff).

Definition execute_node (depth : nat) (r : Registry.t)
    (node_cfg : NodeConfig.t) (state : val) : M val :=
  let! fn :=
    match NodeConfig.type node_cfg with
    | COMPUTATION => lift (get_node r (NodeConfig.name node_cfg))
    | TOOL =>
        if negb (truthy (NodeConfig.tool_name node_cfg)) then
          raise (ValueError ("Tool node '" +:+ NodeConfig.name node_cfg
                             +:+ "' missing 'tool_name'"))
        else lift (get_tool r (default "" (NodeConfig.tool_name node_cfg)))
    end in
  let! new_state := call_maybe_async fn state in
  ret new_state.

(** One pass through the body of the [while] loop of [run_graph]. *)
Definition loop_body (depth : nat) (r : Registry.t) (graph : Graph.t)
    (current : string) (state : val) (logs : list StepLog.t)
  : M (val * list StepLog.t * option string) :=
  match Graph.nodes graph !! current with
  | None => raise (KeyError ("Node '" +:+ current +:+ "' not found in graph"))
  | Some node_cfg =>
      let! before := deepcopy depth state in
      let! started := utcnow in
      let! state := execute_node depth r node_cfg state in
      let! finished := utcnow in
      let! diff := compute_diff depth before state in
      let logs := (logs ++ [StepLog.mk current started finished diff
                              (NodeConfig.description node_cfg)])%list in
      let! current :=
        reading (λ h, choose_next_node depth h graph current state) in
      ret (state, logs, current)
  end.

(** The loop [while current is not None and steps < max_steps], with
    [budget] standing for [max_steps - steps]. *)
Fixpoint run_loop (depth : nat) (r : Registry.t) (graph : Graph.t)
    (budget : nat) (state : val) (logs : list StepLog.t)
    (current : option string) : M (val * list StepLog.t) :=
  match current, budget with
  | Some c, S budget' =>
      let! step := loop_body depth r graph c state logs in
      run_loop depth r graph budget' step.1.1 step.1.2 step.2
  | _, _ => ret (state, logs)
  end.

Definition run_graph (depth : nat) (r : Registry.t) (graph : Graph.t)
    (initial_state : val) (max_steps : Z) : M (val * list StepLog.t) :=
  let! state := deepcopy depth initial_state in
  run_loop depth r graph (Z.to_nat max_steps) state []
           (Some (Graph.entrypoint graph)).

(** ** Literals

    A display such as [{"a": {"b": 5}}]: building it in the store, and
    checking that a value of the store reads as it. *)
#[local] Unset Elimination Schemes.
Inductive lit :=
  | LNone
  | LBool (b : bool)
  | LInt (n : Z)
  | LStr (s : string)
  | LList (xs : list lit)
  | LDict (kvs : list (string * lit)).
#[local] Set Elimination Schemes.

Fixpoint build (x : lit) : M val :=
  match x with
  | LNone => ret VNone
  | LBool b => ret (VBool b)
  | LInt n => ret (VInt n)
  | LStr s => ret (VStr s)
  | LList xs =>
      let! vs :=
        (fix items (xs : list lit) : M (list val) :=
           match xs with
           | [] => ret []
           | y :: ys =>
               let! v := build y in
               let! vs := items ys in
               ret (v :: vs)
           end) xs in
      let! l := alloc (OList vs) in
      ret (VRef l)
  | LDict kvs =>
      let! d :=
        (fix items (kvs : list (string * lit)) (d : gmap string val)
           : M (gmap string val) :=
           match kvs with
           | [] => ret d
           | (k, y) :: rest =>
               let! v := build y in
               items rest (<[k := v]> d)
           end) kvs ∅ in
      let! l := alloc (ODict d) in
      ret (VRef l)
  end.

(** [reads_as h x v]: the value [v] of the store [h] is the display [x],
    the keys of a dict display being distinct. *)
Fixpoint reads_as (h : heap) (x : lit) (v : val) : bool :=
  match x, v with
  | LNone, VNone => true
  | LBool b, VBool b' => bool_decide (b = b')
  | LInt n, VInt n' => bool_decide (n = n')
  | LStr s, VStr s' => bool_decide (s = s')
  | LList xs, VRef l =>
      match h !! l with
      | Some (OList vs) =>
          (fix items (xs : list lit) (vs : list val) : bool :=
             match xs, vs with
             | [], [] => true
             | y :: ys, v :: vs' => reads_as h y v && items ys vs'
             | _, _ => false
             end) xs vs
      | _ => false
      end
  | LDict kvs, VRef l =>
      match h !! l with
      | Some (ODict d) =>
          bool_decide (size d = length kvs) &&
          (fix items (kvs : list (string * lit)) : bool :=
             match kvs with
             | [] => true
             | (k, y) :: rest =>
                 match d !! k with
                 | Some v => reads_as h y v && items rest
                 | None => false
                 end
             end) kvs
      | _ => false
      end
  | _, _ => false
  end.

(** ** The notions the statements use *)

(** What [choose_next_node] answers when it selects an edge to [t]. *)
Definition end_or (t : string) : option string :=
  if bool_decide (t = "__end__") then None else Some t.

(** An edge is unconditional when no condition key is set on it. *)
Definition unconditional (e : EdgeConfig.t) : Prop :=
  truthy (EdgeConfig.condition_key e) = false.

(** The condition of an edge: [compare(lookup(state, key), operator, value)]. *)
Definition condition (depth : nat) (h : heap) (state : val)
    (e : EdgeConfig.t) : outcome bool :=
  _compare depth h
    (_get_from_state h state (default "" (EdgeConfig.condition_key e)))
    (EdgeConfig.operator e) (EdgeConfig.value e).

(** The edge is unconditional or its condition matches. *)
Definition matches (depth : nat) (h : heap) (state : val)
    (e : EdgeConfig.t) : Prop :=
  unconditional e ∨ condition depth h state e = Ok true.

(** The edge does not leave [current], or its condition does not match. *)
Definition passed_over (depth : nat) (h : heap) (current : string)
    (state : val) (e : EdgeConfig.t) : Prop :=
  EdgeConfig.source e ≠ current ∨
  (¬ unconditional e ∧ condition depth h state e = Ok false).

(** The string has no ['.'] in it. *)
Fixpoint dotless (s : string) : bool :=
  match s with
  | EmptyString => true
  | String c rest => negb (bool_decide (c = "."%char)) && dotless rest
  end.

(** ** Notions and examples of the statements *)

(** The record of one execution of a node. *)
Definition step_record (current : string) (node_cfg : NodeConfig.t)
    (started finished : Z) (diff : val) : StepLog.t :=
  StepLog.mk current started finished diff (NodeConfig.description node_cfg).

(** [def noop(state): pass]. *)
Definition noop : pyfun := Def (λ _, ret (Plain VNone)).

Definition one_node_registry : Registry.t :=
  register_node "A" noop (Registry.mk ∅ ∅).

Definition node_A : NodeConfig.t := NodeConfig.mk "A" COMPUTATION None None.

(** One node [A] with an edge to ["__end__"], then an edge to [B]. *)
Definition end_graph : Graph.t :=
  Graph.mk "g1" None "A" (<["A" := node_A]> ∅)
    [EdgeConfig.mk "A" "__end__" None None VNone;
     EdgeConfig.mk "A" "B" None None VNone].

(** One node [A] whose only edge asks for [score < 5]. *)
Definition score_graph : Graph.t :=
  Graph.mk "g2" None "A" (<["A" := node_A]> ∅)
    [EdgeConfig.mk "A" "B" (Some "score") (Some "<") (VInt 5)].

(** The state a caller goes on with after a function returned [v]. *)
Definition resulting_state (state v : val) : val :=
  match v with
  | VNone => state
  | _ => v
  end.

(** [state[k] = v]. *)
Definition store_item (k : string) (v : val) (state : val) : M unit :=
  match state with
  | VRef l => with_heap (setitem l k v)
  | _ => raise (TypeError "object does not support item assignment")
  end.

(** [def fn(state): state[k] = v], which returns nothing. *)
Definition setter (k : string) (v : val) : pyfun :=
  Def (λ state, do! store_item k v state in ret (Plain VNone)).

(** [async def fn(state): return {k: v}]. *)
Definition replacer (k : string) (v : val) : pyfun :=
  AsyncDef (λ _, let! l := alloc (ODict (<[k := v]> ∅)) in ret (VRef l)).

(** [def fn(state): raise RuntimeError("boom")]. *)
Definition failing : pyfun :=
  Def (λ _, raise (Exn "RuntimeError" "boom")).

(** The function that the node [node_cfg] stands for. *)
Definition resolves (r : Registry.t) (node_cfg : NodeConfig.t)
    (fn : pyfun) : Prop :=
  match NodeConfig.type node_cfg with
  | COMPUTATION =>
      Registry.NODE_REGISTRY r !! NodeConfig.name node_cfg = Some fn
  | TOOL =>
      ∃ t, NodeConfig.tool_name node_cfg = Some t ∧ t ≠ "" ∧
           Registry.TOOL_REGISTRY r !! t = Some fn
  end.

(** The step implementation raises [e], at once or when awaited. *)
Definition fails_with (fn : pyfun) (state : val) (w : world)
    (e : exn) (w' : world) : Prop :=
  match fn with
  | Def f =>
      f state w = (Raise e, w') ∨
      ∃ c w1, f state w = (Ok (Coroutine c), w1) ∧ c w1 = (Raise e, w')
  | AsyncDef f => f state w = (Raise e, w')
  end.

Definition tool_T : NodeConfig.t := NodeConfig.mk "T" TOOL None None.
Definition tool_U : NodeConfig.t :=
  NodeConfig.mk "U" TOOL (Some "lint") None.

(** The registry has [A], which does nothing, and [F], which raises. *)
Definition small_registry : Registry.t :=
  register_node "F" failing (register_node "A" noop (Registry.mk ∅ ∅)).

Definition node_F : NodeConfig.t := NodeConfig.mk "F" COMPUTATION None None.

Definition failing_graph : Graph.t :=
  Graph.mk "g3" None "F" (<["F" := node_F]> ∅) [].

(** The items of a dict or of a list. *)
Definition child (o : obj) (v : val) : Prop :=
  match o with
  | ODict d => ∃ k, d !! k = Some v
  | OList xs => v ∈ xs
  end.

(** The value is atomic or refers to a cell of the store. *)
Definition in_heap (h : heap) (v : val) : Prop :=
  match v with
  | VRef l => (l < length h)%nat
  | _ => True
  end.

(** Every reference held in the store refers to a cell of the store. *)
Definition closed (h : heap) : Prop :=
  ∀ l o v, h !! l = Some o → child o v → in_heap h v.

(** The cells below [n] are in [h'] what they are in [h]. *)
Definition agree_below (n : nat) (h h' : heap) : Prop :=
  ∀ l, (l < n)%nat → h' !! l = h !! l.

(** The entry of the diff for a key: [{"before": b, "after": a}]. *)
Definition diff_entry (b a : val) : obj :=
  ODict (<["before" := b]> (<["after" := a]> ∅)).

(** The body of the [for k in all_keys] loop of [compute_diff]. *)
Definition diff_body (depth : nat) (diff : loc) (before after : val)
    (k : string) : M unit :=
  let! b := get before k in
  let! a := get after k in
  let! same := reading (λ h, py_eq depth h b a) in
  if negb same then
    let! b := get before k in
    let! a := get after k in
    let! entry := alloc (ODict (<["before" := b]> (<["after" := a]> ∅))) in
    with_heap (setitem diff k (VRef entry))
  else ret tt.

(** [compute_diff] on [{"x": 1, "y": 2}] and [{"x": 1, "y": 3, "z": 4}]. *)
Definition diff_example : M val :=
  let! before := build (LDict [("x", LInt 1); ("y", LInt 2)]) in
  let! after := build (LDict [("x", LInt 1); ("y", LInt 3); ("z", LInt 4)]) in
  compute_diff 8 before after.

(** [def incr(state): state["n"] = state.get("n", 0) + 1]. *)
Definition incr : pyfun :=
  Def (λ state,
         let! n := get state "n" in
         match n with
         | VNone => do! store_item "n" (VInt 1) state in ret (Plain VNone)
         | VInt i => do! store_item "n" (VInt (i + 1)) state in ret (Plain VNone)
         | _ => raise (TypeError "unsupported operand type(s) for +")
         end).

Definition node_B : NodeConfig.t := NodeConfig.mk "B" COMPUTATION None None.

(** Two nodes and the edges [A -> B] and [B -> A], without a condition. *)
Definition cycle_graph : Graph.t :=
  Graph.mk "g4" None "A" (<["A" := node_A]> (<["B" := node_B]> ∅))
    [EdgeConfig.mk "A" "B" None None VNone;
     EdgeConfig.mk "B" "A" None None VNone].

Definition counting_registry : Registry.t :=
  register_node "B" incr (register_node "A" incr (Registry.mk ∅ ∅)).

Definition idle_registry : Registry.t :=
  register_node "B" noop (register_node "A" noop (Registry.mk ∅ ∅)).

(** In the idle cycle the working state stays the empty dict of cell 1. *)
Definition idle_inv (c : string) (st : val) (w : world) : Prop :=
  (c = "A" ∨ c = "B") ∧ st = VRef 1%nat ∧
  w_heap w !! 1%nat = Some (ODict ∅).

(** The cells that can be reached from a value by following references. *)
Inductive reach (h : heap) : val → loc → Prop :=
  | reach_here l : reach h (VRef l) l
  | reach_step l o v l' :
      h !! l = Some o → child o v → reach h v l' → reach h (VRef l) l'.

(** A value that a function called on [state] in the store [h] can hold:
    an atom, a reference found from [state], or a cell it created. *)
Definition obtained (h : heap) (state : val) (v : val) : Prop :=
  match v with
  | VRef l => reach h state l ∨ (length h ≤ l)%nat
  | _ => True
  end.

(** A registered function acts on the working state only: a call leaves
    every cell that cannot be reached from the state it is given as it
    was, and what it writes and returns it has found from that state or
    created. *)
Definition local (fn : pyfun) : Prop :=
  ∀ state w,
    let h := w_heap w in
    let h' := w_heap (call_maybe_async fn state w).2 in
    (length h ≤ length h')%nat ∧
    (∀ l, (l < length h)%nat → ¬ reach h state l → h' !! l = h !! l) ∧
    (∀ l o v, h' !! l = Some o → h !! l ≠ Some o → child o v →
              obtained h state v) ∧
    (∀ v, (call_maybe_async fn state w).1 = Ok v → obtained h state v).

(** The value is an atom or refers to a cell from [n] on. *)
Definition fresh_val (n : nat) (v : val) : Prop :=
  match v with
  | VRef l => (n ≤ l)%nat
  | _ => True
  end.

(** The cells from [n] on refer to cells from [n] on only. *)
Definition fresh_closed (n : nat) (h : heap) : Prop :=
  ∀ l o v, (n ≤ l)%nat → h !! l = Some o → child o v → fresh_val n v.

Definition good (n : nat) (w : world) : Prop :=
  (n ≤ length (w_heap w))%nat ∧ fresh_closed n (w_heap w).

(** The computation leaves the cells below [n] alone, keeps the cells from
    [n] on closed, and its result satisfies [Q]. *)
Definition keeps {A} (n : nat) (m : M A) (Q : A → Prop) : Prop :=
  ∀ w, good n w →
       good n (m w).2 ∧
       agree_below n (w_heap w) (w_heap (m w).2) ∧
       ∀ a, (m w).1 = Ok a → Q a.

(** The copies that [memo] holds are cells from [n] on. *)
Definition memo_fresh (n : nat) (memo : gmap loc loc) : Prop :=
  ∀ l y, memo !! l = Some y → (n ≤ y)%nat.

(** Every registered function acts on the working state only. *)
Definition local_registry (r : Registry.t) : Prop :=
  (∀ name fn, Registry.NODE_REGISTRY r !! name = Some fn → local fn) ∧
  (∀ name fn, Registry.TOOL_REGISTRY r !! name = Some fn → local fn).

(** [def fn(state): state[k].append(v)]. *)
Definition appender (k : string) (v : val) : pyfun :=
  Def (λ state,
         let! xs := get state k in
         match xs with
         | VRef l =>
             let! o := deref l in
             match o with
             | OList _ => do! with_heap (append l v) in ret (Plain VNone)
             | ODict _ =>
                 raise (AttributeError
                          "'dict' object has no attribute 'append'")
             end
         | _ => raise (AttributeError "object has no attribute 'append'")
         end).

Definition appending_registry : Registry.t :=
  register_node "A" (appender "items" (VInt 2)) (Registry.mk ∅ ∅).

(** One node [A] with an edge to itself. *)
Definition self_loop_graph : Graph.t :=
  Graph.mk "g5" None "A" (<["A" := node_A]> ∅)
    [EdgeConfig.mk "A" "A" None None VNone].

(** The caller's store: [{"items": [1]}] in cell 1, its list in cell 0. *)
Definition caller_heap : heap :=
  [OList [VInt 1]; ODict (<["items" := VRef 0%nat]> ∅)].

(** The graph has an edge from [a] to [b]. *)
Definition linked (graph : Graph.t) (a b : string) : Prop :=
  ∃ e, e ∈ Graph.edges graph ∧
       EdgeConfig.source e = a ∧ EdgeConfig.target e = b.

(** Each name of the list has an edge to the name that follows it. *)
Fixpoint chain (graph : Graph.t) (names : list string) : Prop :=
  match names with
  | a :: rest =>
      match rest with
      | b :: _ => linked graph a b
      | [] => True
      end ∧ chain graph rest
  | [] => True
  end.

(** The records of the passes of the loop from [current] on: each is the
    record of a node of the graph, and the node of the next one is the
    target of an edge from it. *)
Inductive trace (graph : Graph.t) : option string → list StepLog.t → Prop :=
  | trace_stop current : trace graph current []
  | trace_pass c node_cfg rec next rest :
      Graph.nodes graph !! c = Some node_cfg →
      StepLog.node rec = c →
      StepLog.info rec = NodeConfig.description node_cfg →
      (∀ t, next = Some t → t ≠ "__end__" ∧ linked graph c t) →
      trace graph next rest →
      trace graph (Some c) (rec :: rest).

(** [def fn(state): return v]. *)
Definition returning (v : val) : pyfun := Def (λ _, ret (Plain v)).

(** The registry whose node [A] returns [5]. *)
Definition number_registry : Registry.t :=
  register_node "A" (returning (VInt 5)) (Registry.mk ∅ ∅).

(** ** models.py: runs, requests and responses *)

(** The [status] of a run: ["pending"], ["running"], ["completed"],
    ["failed"]. *)
Inductive Status := pending | running | completed | failed.

Module GraphRun.
Record t := mk {
  id : string;
  graph_id : string;
  status : Status;
  state : val;
  logs : list StepLog.t;
  error : option string;
}.
End GraphRun.

Module GraphCreateRequest.
Record t := mk {
  template : option string;
  name : option string;
  nodes : option (list NodeConfig.t);
  edges : option (list EdgeConfig.t);
  entrypoint : option string;
}.
End GraphCreateRequest.

Module GraphCreateResponse.
Record t := mk { graph_id : string }.
End GraphCreateResponse.

Module GraphRunRequest.
Record t := mk { graph_id : string; initial_state : val }.
End GraphRunRequest.

Module GraphRunSyncResponse.
Record t := mk {
  run_id : string;
  final_state : val;
  logs : list StepLog.t;
}.
End GraphRunSyncResponse.

Module GraphRunAsyncResponse.
Record t := mk { run_id : string; status : string }.
End GraphRunAsyncResponse.

(** ** registry.py: the built-in functions *)

(** [register_builtins]: the five functions of [app/nodes/code_review.py]
    under their names, [detect_smells_tool] as the tool ["detect_smells"].
    The functions themselves are arguments: they compute with floats,
    which the values of this embedding leave out. *)
Definition register_builtins
    (extract_functions check_complexity detect_smells_tool
     suggest_improvements evaluate_quality : pyfun) (r : Registry.t)
  : Registry.t :=
  register_node "evaluate_quality" evaluate_quality
    (register_node "suggest_improvements" suggest_improvements
       (register_tool "detect_smells" detect_smells_tool
          (register_node "check_complexity" check_complexity
             (register_node "extract_functions" extract_functions r)))).

(** ** main.py *)

(** What a request handler gives: the response, an [HTTPException] with
    its status code and detail, or an exception that nothing caught. *)
Inductive http (A : Type) :=
  | Respond (a : A)
  | HTTPException (status_code : Z) (detail : string)
  | Uncaught (e : exn).
Arguments Respond {A} a.
Arguments HTTPException {A} status_code detail.
Arguments Uncaught {A} e.

(** The two in-memory stores, [GRAPHS] and [RUNS]. *)
Record stores := Stores {
  GRAPHS : gmap string Graph.t;
  RUNS : gmap string GraphRun.t;
}.

(** [create_code_review_template_graph(name)], [graph_id] being the
    [str(uuid.uuid4())] it draws. *)
Definition create_code_review_template_graph (graph_id : string)
    (name : option string) : Graph.t :=
  let nodes :=
    <["extract_functions" :=
        NodeConfig.mk "extract_functions" COMPUTATION None
          (Some "Extract functions from raw code text.")]>
    (<["check_complexity" :=
        NodeConfig.mk "check_complexity" COMPUTATION None
          (Some "Estimate complexity per function.")]>
    (<["detect_smells" :=
        NodeConfig.mk "detect_smells" TOOL (Some "detect_smells")
          (Some "Tool node: detect simple static code smells.")]>
    (<["suggest_improvements" :=
        NodeConfig.mk "suggest_improvements" COMPUTATION None
          (Some "Suggest improvements and simulate auto-refactor.")]>
    (<["evaluate_quality" :=
        NodeConfig.mk "evaluate_quality" COMPUTATION None
          (Some "Evaluate whether quality_score meets threshold.")]>
     ∅)))) in
  let edges :=
    [EdgeConfig.mk "extract_functions" "check_complexity" None None VNone;
     EdgeConfig.mk "check_complexity" "detect_smells" None None VNone;
     EdgeConfig.mk "detect_smells" "suggest_improvements" None None VNone;
     EdgeConfig.mk "suggest_improvements" "evaluate_quality" None None VNone;
     EdgeConfig.mk "evaluate_quality" "suggest_improvements"
       (Some "meets_quality") (Some "==") (VBool false);
     EdgeConfig.mk "evaluate_quality" "__end__"
       (Some "meets_quality") (Some "==") (VBool true)] in
  Graph.mk graph_id
    (Some (if truthy name then default "" name else "code_review_agent"))
    "extract_functions" nodes edges.

(** [{n.name: n for n in nodes}]. *)
Definition node_map (nodes : list NodeConfig.t) : gmap string NodeConfig.t :=
  foldl (λ m n, <[NodeConfig.name n := n]> m) ∅ nodes.

(** [if xs:] for an optional list: [None] and the empty list are false. *)
Definition truthy_list {A} (xs : option (list A)) : bool :=
  match xs with
  | None | Some [] => false
  | Some (_ :: _) => true
  end.

(** [create_graph(payload)], [uid] being the [str(uuid.uuid4())] drawn for
    the graph. *)
Definition create_graph (uid : string) (payload : GraphCreateRequest.t)
    (s : stores) : http GraphCreateResponse.t * stores :=
  let built : http Graph.t :=
    if bool_decide (GraphCreateRequest.template payload
                    = Some "code_review_agent")
       || (bool_decide (GraphCreateRequest.nodes payload = None)
           && bool_decide (GraphCreateRequest.edges payload = None))
    then
      Respond (create_code_review_template_graph uid
                 (GraphCreateRequest.name payload))
    else if negb (truthy_list (GraphCreateRequest.nodes payload))
            || negb (truthy_list (GraphCreateRequest.edges payload)) then
      HTTPException 400 "Either provide a template or both nodes and edges."
    else if negb (truthy (GraphCreateRequest.entrypoint payload)) then
      HTTPException 400
        "entrypoint is required when defining a custom graph."
    else
      Respond
        (Graph.mk uid (GraphCreateRequest.name payload)
           (default "" (GraphCreateRequest.entrypoint payload))
           (node_map (default [] (GraphCreateRequest.nodes payload)))
           (default [] (GraphCreateRequest.edges payload))) in
  match built with
  | Respond graph =>
      (Respond (GraphCreateResponse.mk (Graph.id graph)),
       Stores (<[Graph.id graph := graph]> (GRAPHS s)) (RUNS s))
  | HTTPException status_code detail => (HTTPException status_code detail, s)
  | Uncaught e => (Uncaught e, s)
  end.

(** [run_graph_sync(payload)], [run_id] being the [str(uuid.uuid4())]
    drawn for the run; [run_graph] is called with its default budget. *)
Definition run_graph_sync (depth : nat) (r : Registry.t) (run_id : string)
    (payload : GraphRunRequest.t) (s : stores)
  : world → (http GraphRunSyncResponse.t * stores) * world :=
  λ w,
    match GRAPHS s !! GraphRunRequest.graph_id payload with
    | None => ((HTTPException 404 "Graph not found", s), w)
    | Some graph =>
        let run :=
          GraphRun.mk run_id (Graph.id graph) running
            (GraphRunRequest.initial_state payload) [] None in
        let s1 := Stores (GRAPHS s) (<[run_id := run]> (RUNS s)) in
        match run_graph depth r graph
                (GraphRunRequest.initial_state payload) 1000 w with
        | (Ok (final_state, logs), w') =>
            let run' :=
              GraphRun.mk (GraphRun.id run) (GraphRun.graph_id run)
                completed final_state logs (GraphRun.error run) in
            ((Respond (GraphRunSyncResponse.mk run_id final_state logs),
              Stores (GRAPHS s1) (<[run_id := run']> (RUNS s1))), w')
        | (Raise e, w') => ((Uncaught e, s1), w')
        end
    end.

(** [_execute_graph_background(graph_id, initial_state, run_id)].
    [is_Exception e] is [isinstance(e, Exception)] and [str_exc e] is
    [str(e)]. *)
Definition _execute_graph_background (depth : nat) (r : Registry.t)
    (is_Exception : exn → bool) (str_exc : exn → string)
    (graph_id : string) (initial_state : val) (run_id : string)
    (s : stores) : world → (outcome unit * stores) * world :=
  λ w,
    match RUNS s !! run_id with
    | None => ((Raise (KeyError run_id), s), w)
    | Some run =>
        let run1 :=
          GraphRun.mk (GraphRun.id run) (GraphRun.graph_id run) running
            (GraphRun.state run) (GraphRun.logs run) (GraphRun.error run) in
        let attempt : outcome (val * list StepLog.t) * world :=
          match GRAPHS s !! graph_id with
          | None => (Raise (KeyError graph_id), w)
          | Some graph => run_graph depth r graph initial_state 1000 w
          end in
        let store (run' : GraphRun.t) :=
          Stores (GRAPHS s) (<[run_id := run']> (RUNS s)) in
        match attempt with
        | (Ok (final_state, logs), w') =>
            ((Ok tt,
              store (GraphRun.mk (GraphRun.id run1) (GraphRun.graph_id run1)
                       completed final_state logs (GraphRun.error run1))),
             w')
        | (Raise e, w') =>
            if is_Exception e then
              ((Ok tt,
                store (GraphRun.mk (GraphRun.id run1)
                         (GraphRun.graph_id run1) failed
                         (GraphRun.state run1) (GraphRun.logs run1)
                         (Some (str_exc e)))),
               w')
            else ((Raise e, store run1), w')
        end
    end.

(** A background task: the arguments [_execute_graph_background] is to be
    called with. *)
Record task := Task {
  task_graph_id : string;
  task_initial_state : val;
  task_run_id : string;
}.

(** [run_graph_async(payload, background_tasks)]. *)
Definition run_graph_async (run_id : string) (payload : GraphRunRequest.t)
    (background_tasks : list task) (s : stores)
  : http GraphRunAsyncResponse.t * list task * stores :=
  match GRAPHS s !! GraphRunRequest.graph_id payload with
  | None => (HTTPException 404 "Graph not found", background_tasks, s)
  | Some graph =>
      let run :=
        GraphRun.mk run_id (Graph.id graph) pending
          (GraphRunRequest.initial_state payload) [] None in
      (Respond (GraphRunAsyncResponse.mk run_id "running"),
       background_tasks ++
         [Task (Graph.id graph) (GraphRunRequest.initial_state payload)
            run_id],
       Stores (GRAPHS s) (<[run_id := run]> (RUNS s)))
  end.

(** [get_graph_state(run_id)]. *)
Definition get_graph_state (run_id : string) (s : stores)
  : http GraphRun.t :=
  match RUNS s !! run_id with
  | None => HTTPException 404 "Run not found"
  | Some run => Respond run
  end.

(** The value is not a reference: [None], a boolean, an integer or a
    string. *)
Definition atomic (v : val) : Prop :=
  match v with
  | VRef _ => False
  | _ => True
  end.

(** A flat state map: all its values are atomic. *)
Definition flat (d : gmap string val) : Prop :=
  ∀ k v, d !! k = Some v → atomic v.

(** Every registered function returns the state it was given or nothing
    (the in-place convention), so that the adapter hands back the state
    it was called with. *)
Definition in_place_registry (r : Registry.t) : Prop :=
  ∀ fn,
    (∃ name, Registry.NODE_REGISTRY r !! name = Some fn) ∨
    (∃ name, Registry.TOOL_REGISTRY r !! name = Some fn) →
    ∀ state w v w', call_maybe_async fn state w = (Ok v, w') → v = state.

(** The errors that the engine raises under a name of its own: the node
    that is not in the graph, the tool name that is missing, the function
    that is not registered. *)
Definition named_failure (e : exn) : Prop :=
  (∃ name, e = KeyError ("Node '" +:+ name +:+ "' not found in graph")) ∨
  (∃ name, e = ValueError ("Tool node '" +:+ name
                           +:+ "' missing 'tool_name'")) ∨
  (∃ key, e = KeyError ("Node function '" +:+ key
                        +:+ "' is not registered")) ∨
  (∃ key, e = KeyError ("Tool '" +:+ key +:+ "' is not registered")).

(** Where the error [e] of a run, raised in the world [w'], comes from: the
    three named failures, a step implementation, or one of the operations
    of the engine on the state (the copy, the diff, the condition of an
    edge). *)
Inductive run_failure (depth : nat) (r : Registry.t) (graph : Graph.t)
    (e : exn) (w' : world) : Prop :=
  | failure_node_not_found current :
      Graph.nodes graph !! current = None →
      e = KeyError ("Node '" +:+ current +:+ "' not found in graph") →
      run_failure depth r graph e w'
  | failure_missing_tool_name current node_cfg :
      Graph.nodes graph !! current = Some node_cfg →
      NodeConfig.type node_cfg = TOOL →
      truthy (NodeConfig.tool_name node_cfg) = false →
      e = ValueError ("Tool node '" +:+ NodeConfig.name node_cfg
                      +:+ "' missing 'tool_name'") →
      run_failure depth r graph e w'
  | failure_node_not_registered current node_cfg :
      Graph.nodes graph !! current = Some node_cfg →
      NodeConfig.type node_cfg = COMPUTATION →
      Registry.NODE_REGISTRY r !! NodeConfig.name node_cfg = None →
      e = KeyError ("Node function '" +:+ NodeConfig.name node_cfg
                    +:+ "' is not registered") →
      run_failure depth r graph e w'
  | failure_tool_not_registered current node_cfg t :
      Graph.nodes graph !! current = Some node_cfg →
      NodeConfig.type node_cfg = TOOL →
      NodeConfig.tool_name node_cfg = Some t → t ≠ "" →
      Registry.TOOL_REGISTRY r !! t = None →
      e = KeyError ("Tool '" +:+ t +:+ "' is not registered") →
      run_failure depth r graph e w'
  | failure_step current node_cfg fn state w :
      Graph.nodes graph !! current = Some node_cfg →
      resolves r node_cfg fn →
      fails_with fn state w e w' →
      run_failure depth r graph e w'
  | failure_copy x w :
      deepcopy depth x w = (Raise e, w') →
      run_failure depth r graph e w'
  | failure_diff before after w :
      compute_diff depth before after w = (Raise e, w') →
      run_failure depth r graph e w'
  | failure_condition current state :
      choose_next_node depth (w_heap w') graph current state = Raise e →
      run_failure depth r graph e w'.

(** * Properties *)

(** ** The monad *)

Lemma bind_ok {A B} (m : M A) (f : A → M B) w a w' :
  m w = (Ok a, w') → bind m f w = f a w'.
Proof. intros H. unfold bind. by rewrite H. Qed.

Lemma bind_raise {A B} (m : M A) (f : A → M B) w e w' :
  m w = (Raise e, w') → bind m f w = (Raise e, w').
Proof. intros H. unfold bind. by rewrite H. Qed.

(** ** Dotted keys *)

Lemma split_on_not_nil sep s : split_on sep s ≠ [].
Proof.
  destruct s as [|c s]; simpl; [done|].
  case_bool_decide; [done|]. by destruct (split_on sep s).
Qed.

Lemma split_on_dotless k : dotless k = true → split_on "." k = [k].
Proof.
  induction k as [|c k IH]; simpl; [done|].
  intros [Hc Hk]%andb_prop. apply negb_true_iff, bool_decide_eq_false in Hc.
  rewrite bool_decide_false by done. by rewrite IH.
Qed.

Lemma split_on_dotted k rest :
  dotless k = true →
  split_on "." (k +:+ String "." rest) = k :: split_on "." rest.
Proof.
  induction k as [|c k IH]; simpl.
  - done.
  - intros [Hc Hk]%andb_prop. apply negb_true_iff, bool_decide_eq_false in Hc.
    rewrite bool_decide_false by done. by rewrite IH.
Qed.

(** C6: dotted-path lookup splits the key at its dots and walks the state
    by the successive keys: a key without a dot is looked up in the state
    map, and a key [k.rest] continues with [rest] from the value under [k];
    where the value at hand is not a map the lookup returns [None] and does
    not raise (a key that is not there reads as [None], too).  So
    [lookup({"a": {"b": 5}}, "a.b")] is [5] and [lookup({"a": 1}, "a.b")]
    is [None]. *)
Theorem get_from_state_dotted_path :
  (∀ h state k,
     dotless k = true →
     _get_from_state h state k =
       match as_dict h state with
       | Some d => dict_get d k
       | None => VNone
       end) ∧
  (∀ h state k rest,
     dotless k = true →
     _get_from_state h state (k +:+ "." +:+ rest) =
       match as_dict h state with
       | Some d => _get_from_state h (dict_get d k) rest
       | None => VNone
       end) ∧
  (∀ w state w',
     build (LDict [("a", LDict [("b", LInt 5)])]) w = (Ok state, w') →
     _get_from_state (w_heap w') state "a.b" = VInt 5) ∧
  (∀ w state w',
     build (LDict [("a", LInt 1)]) w = (Ok state, w') →
     _get_from_state (w_heap w') state "a.b" = VNone).
Proof.
  split_and!.
  - intros h state k Hk. unfold _get_from_state.
    rewrite split_on_dotless by done. simpl. by destruct (as_dict h state).
  - intros h state k rest Hk. unfold _get_from_state.
    change (k +:+ "." +:+ rest) with (k +:+ String "." rest).
    by rewrite split_on_dotted.
  - intros [h t] state w' [= <- <-]. simpl.
    unfold _get_from_state. simpl.
    rewrite lookup_app_r, Nat.sub_diag by (rewrite length_app; simpl; lia).
    simpl. unfold dict_get. rewrite lookup_insert_eq. simpl.
    rewrite <- app_assoc. rewrite lookup_app_r, Nat.sub_diag by lia.
    simpl. by rewrite lookup_insert_eq.
  - intros [h t] state w' [= <- <-]. simpl.
    unfold _get_from_state. simpl.
    rewrite lookup_app_r, Nat.sub_diag by lia.
    simpl. unfold dict_get. by rewrite lookup_insert_eq.
Qed.

Lemma get_from_state_dotted_path_witness :
  dotless "a" = true ∧
  _get_from_state
    [ODict (<["a" := VRef 1%nat]> ∅); ODict (<["b" := VInt 5]> ∅)]
    (VRef 0%nat) ("a" +:+ "." +:+ "b") = VInt 5.
Proof.
  split; [reflexivity|].
  rewrite (proj1 (proj2 get_from_state_dotted_path) _ _ "a" "b" eq_refl).
  vm_compute. reflexivity.
Defined.

(** ** Edge resolution *)

Lemma choose_from_unconditional depth h state e rest :
  unconditional e →
  choose_from depth h state (e :: rest) = Ok (end_or (EdgeConfig.target e)).
Proof.
  unfold unconditional, end_or. intros He. simpl. rewrite He.
  by case_bool_decide.
Qed.

Lemma choose_from_conditional depth h state e rest :
  ¬ unconditional e →
  choose_from depth h state (e :: rest) =
    match condition depth h state e with
    | Ok true => Ok (end_or (EdgeConfig.target e))
    | Ok false => choose_from depth h state rest
    | Raise x => Raise x
    end.
Proof.
  unfold unconditional, end_or, condition. intros He.
  apply not_false_is_true in He. simpl. rewrite He.
  destruct (_compare _ _ _ _ _) as [[]|]; try done. by case_bool_decide.
Qed.

Lemma choose_from_matches depth h state e rest :
  matches depth h state e →
  choose_from depth h state (e :: rest) = Ok (end_or (EdgeConfig.target e)).
Proof.
  intros [He|He]; [by apply choose_from_unconditional|].
  destruct (decide (unconditional e)) as [Hu|Hu].
  - by apply choose_from_unconditional.
  - rewrite choose_from_conditional by done. by rewrite He.
Qed.

(** The edges before the selected one are passed over. *)
Lemma choose_next_node_skip depth h gid gname entry nodes pre rest
    current state :
  Forall (passed_over depth h current state) pre →
  choose_next_node depth h (Graph.mk gid gname entry nodes (pre ++ rest))
    current state =
  choose_next_node depth h (Graph.mk gid gname entry nodes rest)
    current state.
Proof.
  unfold choose_next_node. simpl. induction 1 as [|e pre He _ IH]; [done|].
  simpl. destruct He as [He|[Hu He]].
  - by rewrite filter_cons_False.
  - destruct (decide (EdgeConfig.source e = current)) as [Hs|Hs].
    + rewrite filter_cons_True by done.
      rewrite choose_from_conditional by done. by rewrite He.
    + by rewrite filter_cons_False.
Qed.

Lemma choose_next_node_none depth h graph current state :
  Forall (passed_over depth h current state) (Graph.edges graph) →
  choose_next_node depth h graph current state = Ok None.
Proof.
  destruct graph as [gid gname entry nodes edges]. simpl. intros H.
  rewrite <- (app_nil_r edges). by rewrite choose_next_node_skip.
Qed.

Lemma choose_next_node_first depth h graph current state pre e post :
  Graph.edges graph = (pre ++ e :: post)%list →
  Forall (passed_over depth h current state) pre →
  EdgeConfig.source e = current →
  matches depth h state e →
  choose_next_node depth h graph current state =
    Ok (end_or (EdgeConfig.target e)).
Proof.
  destruct graph as [gid gname entry nodes edges]. simpl.
  intros -> Hpre Hsrc He. rewrite choose_next_node_skip by done.
  unfold choose_next_node. simpl. rewrite filter_cons_True by done.
  by apply choose_from_matches.
Qed.

(** C1: edge resolution is first-match-wins in declared order.  When the
    edges of the graph are [pre ++ e :: post], where every edge of [pre]
    either does not leave the current node or has a condition that does
    not match, and [e] leaves the current node and is unconditional (no
    condition key set) or has a matching condition, then the target of [e]
    is chosen ([None] for ["__end__"]), whatever [post] holds. *)
Theorem choose_next_node_first_match depth h graph current state pre e post :
  Graph.edges graph = (pre ++ e :: post)%list →
  Forall (passed_over depth h current state) pre →
  EdgeConfig.source e = current →
  matches depth h state e →
  choose_next_node depth h graph current state =
    Ok (end_or (EdgeConfig.target e)).
Proof. apply choose_next_node_first. Qed.

(** Two edges from [A] that match at once: the earlier one is taken. *)
Lemma choose_next_node_first_match_witness :
  let h := [ODict (<["score" := VInt 7]> ∅)] in
  let e1 := EdgeConfig.mk "A" "B" (Some "score") (Some ">") (VInt 5) in
  let e2 := EdgeConfig.mk "A" "C" None None VNone in
  let e0 := EdgeConfig.mk "Z" "D" None None VNone in
  let e3 := EdgeConfig.mk "A" "E" (Some "score") (Some "<") (VInt 1) in
  let g := Graph.mk "g" None "A" ∅ [e0; e3; e1; e2] in
  matches 8 h (VRef 0%nat) e1 ∧ matches 8 h (VRef 0%nat) e2 ∧
  choose_next_node 8 h g "A" (VRef 0%nat) = Ok (Some "B").
Proof.
  intros h e1 e2 e0 e3 g.
  assert (H1 : matches 8 h (VRef 0%nat) e1) by (right; vm_compute; reflexivity).
  split_and!; [exact H1 | left; reflexivity |].
  refine (choose_next_node_first_match 8 h g "A" (VRef 0%nat)
            [e0; e3] e1 [e2] eq_refl _ eq_refl H1).
  apply List.Forall_cons; [left; discriminate|].
  apply List.Forall_cons; [|apply List.Forall_nil].
  right. split; [discriminate | vm_compute; reflexivity].
Defined.

(** C9: an edge whose condition key is set but whose operator is absent
    always matches: the comparison is true whatever the value looked up and
    whatever the value of the edge, and the edge resolves as the same edge
    without its condition key does. *)
Theorem operator_absent_always_matches :
  (∀ depth h lhs rhs, _compare depth h lhs None rhs = Ok true) ∧
  (∀ depth h state src tgt key v,
     matches depth h state (EdgeConfig.mk src tgt (Some key) None v)) ∧
  (∀ depth h gid gname entry nodes pre post src tgt key v current state,
     choose_next_node depth h
       (Graph.mk gid gname entry nodes
          (pre ++ EdgeConfig.mk src tgt (Some key) None v :: post))
       current state =
     choose_next_node depth h
       (Graph.mk gid gname entry nodes
          (pre ++ EdgeConfig.mk src tgt None None v :: post))
       current state).
Proof.
  split_and!.
  - done.
  - intros. by right.
  - intros. unfold choose_next_node. simpl.
    rewrite !filter_app. generalize (filter (λ e, EdgeConfig.source e = current) pre).
    intros cands. induction cands as [|c cands IH].
    + simpl. destruct (decide (src = current)) as [Hs|Hs].
      * rewrite !filter_cons_True by done.
        rewrite !choose_from_matches; [done | by left | by right].
      * by rewrite !filter_cons_False.
    + simpl. rewrite IH. done.
Qed.

(** ** The loop of the run *)

Lemma run_loop_done depth r graph budget state logs w :
  run_loop depth r graph budget state logs None w = (Ok (state, logs), w).
Proof. by destruct budget. Qed.

Lemma run_loop_exhausted depth r graph state logs current w :
  run_loop depth r graph 0 state logs current w = (Ok (state, logs), w).
Proof. by destruct current. Qed.

Lemma run_loop_step depth r graph budget state logs c w state' logs' next w' :
  loop_body depth r graph c state logs w = (Ok (state', logs', next), w') →
  run_loop depth r graph (S budget) state logs (Some c) w =
    run_loop depth r graph budget state' logs' next w'.
Proof. intros H. simpl. by rewrite (bind_ok _ _ _ _ _ H). Qed.

Lemma run_loop_raise depth r graph budget state logs c w e w' :
  loop_body depth r graph c state logs w = (Raise e, w') →
  run_loop depth r graph (S budget) state logs (Some c) w = (Raise e, w').
Proof. intros H. simpl. by rewrite (bind_raise _ _ _ _ _ H). Qed.

Section one_pass.
Context (depth : nat) (r : Registry.t) (graph : Graph.t).
Context (current : string) (node_cfg : NodeConfig.t).
Context (state : val) (logs : list StepLog.t) (w : world).
Hypothesis Hnode : Graph.nodes graph !! current = Some node_cfg.

Lemma loop_body_copy_raise e w1 :
  deepcopy depth state w = (Raise e, w1) →
  loop_body depth r graph current state logs w = (Raise e, w1).
Proof.
  intros H. unfold loop_body. rewrite Hnode.
  by rewrite (bind_raise _ _ _ _ _ H).
Qed.

Context (before : val) (w1 : world).
Hypothesis Hcopy : deepcopy depth state w = (Ok before, w1).

Lemma loop_body_execute_raise e w2 :
  execute_node depth r node_cfg state w1 = (Raise e, w2) →
  loop_body depth r graph current state logs w = (Raise e, w2).
Proof.
  intros H. unfold loop_body. rewrite Hnode.
  rewrite (bind_ok _ _ _ _ _ Hcopy). unfold bind at 1. simpl.
  by rewrite (bind_raise _ _ _ _ _ H).
Qed.

Context (state' : val) (w2 : world).
Hypothesis Hexec : execute_node depth r node_cfg state w1 = (Ok state', w2).

Lemma loop_body_diff_raise e w3 :
  compute_diff depth before state' w2 = (Raise e, w3) →
  loop_body depth r graph current state logs w = (Raise e, w3).
Proof.
  intros H. unfold loop_body. rewrite Hnode.
  rewrite (bind_ok _ _ _ _ _ Hcopy). unfold bind at 1. simpl.
  rewrite (bind_ok _ _ _ _ _ Hexec). unfold bind at 1. simpl.
  by rewrite (bind_raise _ _ _ _ _ H).
Qed.

Context (diff : val) (w3 : world).
Hypothesis Hdiff : compute_diff depth before state' w2 = (Ok diff, w3).

Lemma loop_body_choose :
  loop_body depth r graph current state logs w =
    match choose_next_node depth (w_heap w3) graph current state' with
    | Ok next =>
        (Ok (state',
             (logs ++ [step_record current node_cfg
                         (w_time w1) (w_time w2) diff])%list,
             next), w3)
    | Raise e => (Raise e, w3)
    end.
Proof.
  unfold loop_body. rewrite Hnode.
  rewrite (bind_ok _ _ _ _ _ Hcopy). unfold bind at 1. simpl.
  rewrite (bind_ok _ _ _ _ _ Hexec). unfold bind at 1. simpl.
  rewrite (bind_ok _ _ _ _ _ Hdiff). unfold bind, reading, ret. simpl.
  by destruct (choose_next_node _ _ _ _ _).
Qed.
End one_pass.

(** C2: both ways of ending are normal.  In a pass of the loop in which the
    node ran and its diff was taken, if the edge selected has the target
    ["__end__"], or every edge of the graph is passed over (it does not
    leave the current node, or its condition does not match), the run
    returns the state and the records so far, the one of this pass
    included; ["__end__"] is never looked up in [graph.nodes]. *)
Theorem termination_is_normal depth r graph budget current node_cfg
    state logs w before w1 state' w2 diff w3 :
  Graph.nodes graph !! current = Some node_cfg →
  deepcopy depth state w = (Ok before, w1) →
  execute_node depth r node_cfg state w1 = (Ok state', w2) →
  compute_diff depth before state' w2 = (Ok diff, w3) →
  (∃ pre e post,
     Graph.edges graph = (pre ++ e :: post)%list ∧
     Forall (passed_over depth (w_heap w3) current state') pre ∧
     EdgeConfig.source e = current ∧
     matches depth (w_heap w3) state' e ∧
     EdgeConfig.target e = "__end__") ∨
  Forall (passed_over depth (w_heap w3) current state') (Graph.edges graph) →
  run_loop depth r graph (S budget) state logs (Some current) w =
    (Ok (state',
         (logs ++ [step_record current node_cfg
                     (w_time w1) (w_time w2) diff])%list), w3).
Proof.
  intros Hnode Hcopy Hexec Hdiff Hend.
  assert (Hnone : choose_next_node depth (w_heap w3) graph current state'
                  = Ok None).
  { destruct Hend as [(pre & e & post & Hedges & Hpre & Hsrc & He & Htgt)|Hall].
    - rewrite (choose_next_node_first _ _ _ _ _ _ _ _ Hedges Hpre Hsrc He).
      unfold end_or. by rewrite Htgt.
    - by apply choose_next_node_none. }
  erewrite run_loop_step.
  - apply run_loop_done.
  - erewrite loop_body_choose by done. by rewrite Hnone.
Qed.

Lemma termination_is_normal_witness :
  Graph.nodes end_graph !! "__end__" = None ∧
  run_loop 8 one_node_registry end_graph 5 (VRef 0%nat) [] (Some "A")
    (World [ODict ∅] 0) =
  (Ok (VRef 0%nat, [step_record "A" node_A 0 0 (VRef 2%nat)]),
   World [ODict ∅; ODict ∅; ODict ∅] 0).
Proof.
  split; [reflexivity|].
  refine (termination_is_normal 8 one_node_registry end_graph 4 "A" node_A
            (VRef 0%nat) [] (World [ODict ∅] 0)
            (VRef 1%nat) (World [ODict ∅; ODict ∅] 0)
            (VRef 0%nat) (World [ODict ∅; ODict ∅] 0)
            (VRef 2%nat) (World [ODict ∅; ODict ∅; ODict ∅] 0)
            eq_refl _ _ _ _).
  - vm_compute. reflexivity.
  - vm_compute. reflexivity.
  - vm_compute. reflexivity.
  - left. exists [], (EdgeConfig.mk "A" "__end__" None None VNone),
      [EdgeConfig.mk "A" "B" None None VNone].
    split_and!; [reflexivity | apply List.Forall_nil | reflexivity
                | left; reflexivity | reflexivity].
Defined.

(** C10: an ordering comparison whose left side is [None] raises a
    [TypeError] for each of [<], [>], [<=], [>=]; an edge that is reached
    with such a condition (its key is not in the state) makes
    [choose_next_node] raise it instead of passing the edge over; and the
    error of the edge resolution leaves [run_graph] as the error of the
    run, as in the run of a graph whose only edge asks for [score < 5] on
    the empty state. *)
Theorem ordering_against_none_raises :
  (∀ depth h op rhs,
     _compare depth h VNone (Some (op_symbol op)) rhs =
       Raise (not_supported h op VNone rhs)) ∧
  (∀ depth h graph current state pre e post op,
     Graph.edges graph = (pre ++ e :: post)%list →
     Forall (passed_over depth h current state) pre →
     EdgeConfig.source e = current →
     ¬ unconditional e →
     EdgeConfig.operator e = Some (op_symbol op) →
     _get_from_state h state (default "" (EdgeConfig.condition_key e))
       = VNone →
     choose_next_node depth h graph current state =
       Raise (not_supported h op VNone (EdgeConfig.value e))) ∧
  (∀ depth r graph budget current node_cfg state logs w
     before w1 state' w2 diff w3 e,
     Graph.nodes graph !! current = Some node_cfg →
     deepcopy depth state w = (Ok before, w1) →
     execute_node depth r node_cfg state w1 = (Ok state', w2) →
     compute_diff depth before state' w2 = (Ok diff, w3) →
     choose_next_node depth (w_heap w3) graph current state' = Raise e →
     run_loop depth r graph (S budget) state logs (Some current) w =
       (Raise e, w3)) ∧
  (run_graph 8 one_node_registry score_graph (VRef 0%nat) 1000
     (World [ODict ∅] 0)).1 =
    Raise (TypeError
      "'<' not supported between instances of 'NoneType' and 'int'").
Proof.
  assert (Hcmp : ∀ depth h op rhs,
     _compare depth h VNone (Some (op_symbol op)) rhs =
       Raise (not_supported h op VNone rhs)).
  { intros depth h op rhs. destruct op; simpl; by destruct depth. }
  split_and!.
  - exact Hcmp.
  - intros depth h [gid gname entry nodes edges] current state pre e post op.
    simpl. intros -> Hpre Hsrc Hu Hop Hlhs.
    rewrite choose_next_node_skip by done.
    unfold choose_next_node. simpl. rewrite filter_cons_True by done.
    rewrite choose_from_conditional by done.
    unfold condition. by rewrite Hlhs, Hop, Hcmp.
  - intros depth r graph budget current node_cfg state logs w
      before w1 state' w2 diff w3 e Hnode Hcopy Hexec Hdiff Hnext.
    apply run_loop_raise.
    erewrite loop_body_choose by done. by rewrite Hnext.
  - vm_compute. reflexivity.
Qed.

Lemma ordering_against_none_raises_witness :
  let h := [ODict ∅] in
  choose_next_node 8 h score_graph "A" (VRef 0%nat) =
    Raise (not_supported h OpLt VNone (VInt 5)) ∧
  run_loop 8 one_node_registry score_graph 5 (VRef 0%nat) [] (Some "A")
    (World h 0) =
  (Raise (not_supported h OpLt VNone (VInt 5)),
   World [ODict ∅; ODict ∅; ODict ∅] 0).
Proof.
  intros h. split.
  - refine (proj1 (proj2 ordering_against_none_raises) 8%nat h score_graph "A"
              (VRef 0%nat) [] _ [] OpLt eq_refl _ eq_refl _ eq_refl eq_refl).
    + apply List.Forall_nil.
    + discriminate.
  - refine (proj1 (proj2 (proj2 ordering_against_none_raises))
              8%nat one_node_registry score_graph 4%nat "A" node_A
              (VRef 0%nat) [] (World h 0)
              (VRef 1%nat) (World [ODict ∅; ODict ∅] 0)
              (VRef 0%nat) (World [ODict ∅; ODict ∅] 0)
              (VRef 2%nat) (World [ODict ∅; ODict ∅; ODict ∅] 0)
              _ eq_refl _ _ _ _); vm_compute; reflexivity.
Defined.

(** ** The registry *)

(** C8: the invocation adapter returns the state map the function
    returned when it returned one, and the very state map it was given
    (the same reference) when the function returned nothing, for a plain
    function, for a plain function that hands back a coroutine and for a
    coroutine function alike. *)
Theorem call_maybe_async_result :
  (∀ f state w v w',
     f state w = (Ok (Plain v), w') →
     call_maybe_async (Def f) state w = (Ok (resulting_state state v), w')) ∧
  (∀ f state w c w1 v w',
     f state w = (Ok (Coroutine c), w1) →
     c w1 = (Ok v, w') →
     call_maybe_async (Def f) state w = (Ok (resulting_state state v), w')) ∧
  (∀ f state w v w',
     f state w = (Ok v, w') →
     call_maybe_async (AsyncDef f) state w
       = (Ok (resulting_state state v), w')) ∧
  (∀ state v, v ≠ VNone → resulting_state state v = v) ∧
  (∀ state, resulting_state state VNone = state).
Proof.
  split_and!.
  - intros f state w v w' Hf. unfold call_maybe_async.
    rewrite (bind_ok _ _ _ _ _ (bind_ok _ _ _ _ _ Hf)). by destruct v.
  - intros f state w c w1 v w' Hf Hc. unfold call_maybe_async.
    rewrite (bind_ok _ _ _ _ _ (eq_trans (bind_ok _ _ _ _ _ Hf) Hc)).
    by destruct v.
  - intros f state w v w' Hf. unfold call_maybe_async.
    rewrite (bind_ok _ _ _ _ _ Hf). by destruct v.
  - intros state v Hv. by destruct v.
  - done.
Qed.

Lemma call_maybe_async_result_witness :
  call_maybe_async (setter "x" (VInt 1)) (VRef 0%nat) (World [ODict ∅] 0) =
    (Ok (VRef 0%nat), World [ODict (<["x" := VInt 1]> ∅)] 0) ∧
  call_maybe_async (replacer "x" (VInt 1)) (VRef 0%nat) (World [ODict ∅] 0) =
    (Ok (VRef 1%nat), World [ODict ∅; ODict (<["x" := VInt 1]> ∅)] 0).
Proof.
  split.
  - refine (proj1 call_maybe_async_result _ (VRef 0%nat) (World [ODict ∅] 0)
              VNone (World [ODict (<["x" := VInt 1]> ∅)] 0) _).
    vm_compute. reflexivity.
  - refine (proj1 (proj2 (proj2 call_maybe_async_result)) _ (VRef 0%nat)
              (World [ODict ∅] 0) (VRef 1%nat)
              (World [ODict ∅; ODict (<["x" := VInt 1]> ∅)] 0) _).
    vm_compute. reflexivity.
Defined.

Lemma execute_node_resolved depth r node_cfg fn state w :
  resolves r node_cfg fn →
  execute_node depth r node_cfg state w =
    bind (call_maybe_async fn state) ret w.
Proof.
  unfold resolves, execute_node. destruct (NodeConfig.type node_cfg).
  - intros H. unfold get_node. rewrite H. done.
  - intros (t & Ht & Hne & H). rewrite Ht. simpl.
    rewrite bool_decide_false by done. simpl.
    unfold get_tool. rewrite H. done.
Qed.

Lemma call_maybe_async_fails fn state w e w' :
  fails_with fn state w e w' →
  call_maybe_async fn state w = (Raise e, w').
Proof.
  unfold call_maybe_async. destruct fn as [f|f]; simpl.
  - intros [H|(c & w1 & H & Hc)].
    + by rewrite (bind_raise _ _ _ _ _ (bind_raise _ _ _ _ _ H)).
    + by rewrite (bind_raise _ _ _ _ _ (eq_trans (bind_ok _ _ _ _ _ H) Hc)).
  - intros H. by rewrite (bind_raise _ _ _ _ _ H).
Qed.


(** ** Stores *)

Lemma all_ok_ext {A} (f g : A → outcome bool) xs :
  (∀ x, x ∈ xs → f x = g x) → all_ok f xs = all_ok g xs.
Proof.
  induction xs as [|x xs IH]; simpl; [done|]. intros H.
  rewrite (H x) by left. rewrite IH; [done|]. intros y Hy. apply H. by right.
Qed.

Lemma in_heap_lookup h h' l :
  agree_below (length h) h h' → in_heap h (VRef l) → h' !! l = h !! l.
Proof. intros Hag Hl. by apply Hag. Qed.

Lemma py_eq_frame depth h h' a b :
  closed h → agree_below (length h) h h' →
  in_heap h a → in_heap h b →
  py_eq depth h' a b = py_eq depth h a b.
Proof.
  intros Hcl Hag. revert a b.
  induction depth as [|depth IH]; intros a b Ha Hb.
  - destruct a, b; simpl; try done.
    rewrite !(in_heap_lookup h h') by done. done.
  - destruct a as [| | | |la], b as [| | | |lb]; simpl; try done.
    rewrite !(in_heap_lookup h h') by done.
    destruct (h !! la) as [oa|] eqn:Hla; [|done].
    destruct (h !! lb) as [ob|] eqn:Hlb; [|done].
    destruct oa as [da|xs], ob as [db|ys]; try done.
    + case_bool_decide; [|done]. apply all_ok_ext. intros [k x] Hkx.
      apply elem_of_map_to_list in Hkx. simpl.
      destruct (db !! k) as [y|] eqn:Hy; [|done].
      case_bool_decide; [done|]. apply IH.
      * eapply Hcl; [exact Hlb|]. by exists k.
      * eapply Hcl; [exact Hla|]. by exists k.
    + case_bool_decide; [|done]. apply all_ok_ext. intros [x y] Hxy.
      simpl. case_bool_decide; [done|].
      apply elem_of_zip_l in Hxy as Hx. apply elem_of_zip_r in Hxy as Hy.
      apply IH.
      * eapply Hcl; [exact Hla|]. done.
      * eapply Hcl; [exact Hlb|]. done.
Qed.

Lemma as_dict_in_heap h x d : as_dict h x = Some d → in_heap h x.
Proof.
  destruct x as [| | | |l]; simpl; try done.
  destruct (h !! l) eqn:Hl; [|done]. intros _. by eapply lookup_lt_Some.
Qed.

Lemma as_dict_frame h h' x d :
  agree_below (length h) h h' → as_dict h x = Some d → as_dict h' x = Some d.
Proof.
  intros Hag Hx. pose proof (as_dict_in_heap _ _ _ Hx) as Hin.
  destruct x as [| | | |l]; simpl in *; try done. by rewrite Hag.
Qed.

Lemma dict_get_in_heap h x d k :
  closed h → as_dict h x = Some d → in_heap h (dict_get d k).
Proof.
  intros Hcl Hx. unfold dict_get. destruct (d !! k) as [v|] eqn:Hk; [|done].
  destruct x as [| | | |l]; simpl in *; try done.
  destruct (h !! l) as [[d'|]|] eqn:Hl; try done. injection Hx as ->.
  eapply Hcl; [exact Hl|]. by exists k.
Qed.

Lemma get_ok x k d w :
  as_dict (w_heap w) x = Some d → get x k w = (Ok (dict_get d k), w).
Proof. intros H. unfold get, reading. by rewrite H. Qed.

Lemma keys_ok x d w :
  as_dict (w_heap w) x = Some d → keys x w = (Ok (dom d), w).
Proof. intros H. unfold keys, reading. by rewrite H. Qed.

(** ** The diff *)

Section diff.
Context (depth : nat) (h : heap) (t : Z) (before after : val).
Context (mb ma : gmap string val) (same : string → bool).
Hypothesis Hclosed : closed h.
Hypothesis Hbefore : as_dict h before = Some mb.
Hypothesis Hafter : as_dict h after = Some ma.
Hypothesis Hsame : ∀ k, k ∈ dom mb ∪ dom ma →
  py_eq depth h (dict_get mb k) (dict_get ma k) = Ok (same k).

Let ld := length h.

Lemma diff_body_same h1 k :
  agree_below (length h) h h1 → k ∈ dom mb ∪ dom ma → same k = true →
  diff_body depth ld before after k (World h1 t) = (Ok tt, World h1 t).
Proof.
  intros Hag Hk Hs. unfold diff_body.
  rewrite (bind_ok _ _ _ _ _ (get_ok before k mb (World h1 t) (as_dict_frame _ _ _ _ Hag Hbefore))).
  rewrite (bind_ok _ _ _ _ _ (get_ok after k ma (World h1 t) (as_dict_frame _ _ _ _ Hag Hafter))).
  unfold bind, reading. simpl.
  rewrite (py_eq_frame depth h h1) by eauto using dict_get_in_heap.
  rewrite Hsame by done. by rewrite Hs.
Qed.

Lemma diff_body_changed h1 k md :
  agree_below (length h) h h1 → k ∈ dom mb ∪ dom ma → same k = false →
  h1 !! ld = Some (ODict md) →
  diff_body depth ld before after k (World h1 t) =
    (Ok tt,
     World (<[ld := ODict (<[k := VRef (length h1)]> md)]>
              (h1 ++ [diff_entry (dict_get mb k) (dict_get ma k)])%list) t).
Proof.
  intros Hag Hk Hs Hld. unfold diff_body.
  rewrite (bind_ok _ _ _ _ _ (get_ok before k mb (World h1 t) (as_dict_frame _ _ _ _ Hag Hbefore))).
  rewrite (bind_ok _ _ _ _ _ (get_ok after k ma (World h1 t) (as_dict_frame _ _ _ _ Hag Hafter))).
  unfold bind at 1. unfold reading at 1. simpl.
  rewrite (py_eq_frame depth h h1) by eauto using dict_get_in_heap.
  rewrite Hsame by done. rewrite Hs. simpl.
  rewrite (bind_ok _ _ _ _ _ (get_ok before k mb (World h1 t) (as_dict_frame _ _ _ _ Hag Hbefore))).
  rewrite (bind_ok _ _ _ _ _ (get_ok after k ma (World h1 t) (as_dict_frame _ _ _ _ Hag Hafter))).
  unfold bind, alloc, with_heap, setitem. simpl.
  rewrite lookup_app_l by (by eapply lookup_lt_Some). by rewrite Hld.
Qed.

Lemma diff_loop ks :
  (∀ k, k ∈ ks → k ∈ dom mb ∪ dom ma) →
  ∀ h1 md,
    agree_below (length h) h h1 → (length h < length h1)%nat →
    h1 !! ld = Some (ODict md) →
    ∃ h2 md2,
      for_each (diff_body depth ld before after) ks (World h1 t)
        = (Ok tt, World h2 t) ∧
      agree_below (length h) h h2 ∧ (length h1 ≤ length h2)%nat ∧
      (∀ l, (l < length h1)%nat → l ≠ ld → h2 !! l = h1 !! l) ∧
      h2 !! ld = Some (ODict md2) ∧
      (∀ k, k ∈ ks → same k = false →
         ∃ le, md2 !! k = Some (VRef le) ∧ le ≠ ld ∧
               h2 !! le = Some (diff_entry (dict_get mb k) (dict_get ma k))) ∧
      (∀ k, k ∉ ks ∨ same k = true → md2 !! k = md !! k).
Proof.
  induction ks as [|k0 rest IH]; intros Hks h1 md Hag Hlen Hld.
  - exists h1, md. split_and!; try done. intros k Hk. by apply not_elem_of_nil in Hk.
  - assert (Hk0 : k0 ∈ dom mb ∪ dom ma) by (apply Hks; left).
    assert (Hrest : ∀ k, k ∈ rest → k ∈ dom mb ∪ dom ma)
      by (intros k Hk; apply Hks; by right).
    unfold for_each. simpl. fold (for_each (diff_body depth ld before after) rest).
    destruct (same k0) eqn:Hs.
    + rewrite (bind_ok _ _ _ _ _ (diff_body_same h1 k0 Hag Hk0 Hs)).
      destruct (IH Hrest h1 md Hag Hlen Hld)
        as (h2 & md2 & Hrun & Hag2 & Hlen2 & Hold & Hld2 & Hin & Hout).
      exists h2, md2. split_and!; try done.
      * intros k Hk Hsk. apply elem_of_cons in Hk as [->|Hk]; [congruence|].
        by apply Hin.
      * intros k [Hk|Hk]; apply Hout; [|by right].
        left. intros ?. apply Hk. by right.
    + rewrite (bind_ok _ _ _ _ _ (diff_body_changed h1 k0 md Hag Hk0 Hs Hld)).
      set (entry := diff_entry (dict_get mb k0) (dict_get ma k0)).
      set (md1 := <[k0 := VRef (length h1)]> md).
      set (h1' := <[ld := ODict md1]> (h1 ++ [entry])%list).
      assert (Hlen1 : length h1' = S (length h1)).
      { unfold h1'. rewrite length_insert, length_app. simpl. lia. }
      assert (Hag1 : agree_below (length h) h h1').
      { intros l Hl. unfold h1'. fold ld in Hl.
        rewrite list_lookup_insert_ne by lia.
        rewrite lookup_app_l by lia. by apply Hag. }
      assert (Hld1 : h1' !! ld = Some (ODict md1)).
      { unfold h1'. apply list_lookup_insert_eq. rewrite length_app. fold ld in Hlen. lia. }
      destruct (IH Hrest h1' md1 Hag1 ltac:(lia) Hld1)
        as (h2 & md2 & Hrun & Hag2 & Hlen2 & Hold & Hld2 & Hin & Hout).
      exists h2, md2. split_and!; try done.
      * lia.
      * intros l Hl Hne. rewrite Hold by lia. unfold h1'.
        rewrite list_lookup_insert_ne by done. by rewrite lookup_app_l.
      * intros k Hk Hsk. destruct (decide (k ∈ rest)) as [Hr|Hr]; [by apply Hin|].
        apply elem_of_cons in Hk as [->|Hk]; [|done].
        exists (length h1). fold ld in Hlen. split_and!.
        -- rewrite Hout by (by left). unfold md1. apply lookup_insert_eq.
        -- lia.
        -- rewrite Hold by lia. unfold h1'.
           rewrite list_lookup_insert_ne by lia.
           rewrite lookup_app_r, Nat.sub_diag by lia. done.
      * intros k Hk. rewrite Hout.
        -- unfold md1. apply lookup_insert_ne. intros <-.
           destruct Hk as [Hk|Hk]; [|congruence]. apply Hk. left.
        -- destruct Hk as [Hk|Hk]; [|by right]. left. intros ?. apply Hk. by right.
Qed.

Lemma compute_diff_spec :
  ∃ md h',
    compute_diff depth before after (World h t) = (Ok (VRef ld), World h' t) ∧
    agree_below (length h) h h' ∧
    h' !! ld = Some (ODict md) ∧
    ∀ k,
      (k ∈ dom mb ∪ dom ma → same k = false →
         ∃ le, md !! k = Some (VRef le) ∧
               h' !! le = Some (diff_entry (dict_get mb k) (dict_get ma k))) ∧
      (k ∉ dom mb ∪ dom ma ∨ same k = true → md !! k = None).
Proof.
  set (h1 := (h ++ [ODict ∅])%list).
  assert (Hag : agree_below (length h) h h1).
  { intros l Hl. unfold h1. by rewrite lookup_app_l. }
  assert (Hlen : (length h < length h1)%nat).
  { unfold h1. rewrite length_app. simpl. lia. }
  assert (Hld : h1 !! ld = Some (ODict ∅)).
  { unfold h1, ld. by rewrite lookup_app_r, Nat.sub_diag. }
  destruct (diff_loop (elements (dom mb ∪ dom ma))
              ltac:(intros k Hk; by apply elem_of_elements in Hk)
              h1 ∅ Hag Hlen Hld)
    as (h2 & md2 & Hrun & Hag2 & Hlen2 & Hold & Hld2 & Hin & Hout).
  exists md2, h2. split_and!; try done.
  - unfold compute_diff. unfold bind at 1. unfold alloc at 1. simpl.
    fold h1. fold ld.
    rewrite (bind_ok _ _ _ _ _ (keys_ok before mb (World h1 t) (as_dict_frame _ _ _ _ Hag Hbefore))).
    rewrite (bind_ok _ _ _ _ _ (keys_ok after ma (World h1 t) (as_dict_frame _ _ _ _ Hag Hafter))).
    change (for_each _ (elements (dom mb ∪ dom ma)))
      with (for_each (diff_body depth ld before after) (elements (dom mb ∪ dom ma))).
    by rewrite (bind_ok _ _ _ _ _ Hrun).
  - intros k. split.
    + intros Hk Hs. destruct (Hin k) as (le & Hle & _ & Hentry); [|done|by exists le].
      by apply elem_of_elements.
    + intros Hk. rewrite Hout; [done|]. destruct Hk as [Hk|Hk]; [|by right].
      left. by rewrite elem_of_elements.
Qed.
End diff.

(** C5: the shallow diff.  For two state maps whose values compare without
    raising, [compute_diff] returns a new dict which holds, for every key
    of either map whose values in the two maps differ (a key that is not
    there reading as [None]), a dict [{"before": b, "after": a}] of the two
    values, and which holds nothing for any other key; the maps compared
    are left as they were.  For [{"x": 1, "y": 2}] and
    [{"x": 1, "y": 3, "z": 4}] the diff is exactly
    [{"y": {"before": 2, "after": 3}, "z": {"before": None, "after": 4}}]. *)
Theorem compute_diff_shallow :
  (∀ depth h t before after mb ma (same : string → bool),
     closed h →
     as_dict h before = Some mb →
     as_dict h after = Some ma →
     (∀ k, k ∈ dom mb ∪ dom ma →
        py_eq depth h (dict_get mb k) (dict_get ma k) = Ok (same k)) →
     ∃ md h',
       compute_diff depth before after (World h t)
         = (Ok (VRef (length h)), World h' t) ∧
       agree_below (length h) h h' ∧
       h' !! length h = Some (ODict md) ∧
       ∀ k,
         (k ∈ dom mb ∪ dom ma → same k = false →
            ∃ le, md !! k = Some (VRef le) ∧
                  h' !! le
                    = Some (diff_entry (dict_get mb k) (dict_get ma k))) ∧
         (k ∉ dom mb ∪ dom ma ∨ same k = true → md !! k = None)) ∧
  match diff_example (World [] 0) with
  | (Ok diff, w) =>
      reads_as (w_heap w)
        (LDict [("y", LDict [("before", LInt 2); ("after", LInt 3)]);
                ("z", LDict [("before", LNone); ("after", LInt 4)])])
        diff = true
  | _ => False
  end.
Proof.
  split.
  - intros depth h t before after mb ma same Hcl Hb Ha Hsame.
    exact (compute_diff_spec depth h t before after mb ma same Hcl Hb Ha Hsame).
  - vm_compute. reflexivity.
Qed.

Lemma compute_diff_shallow_witness :
  let h := [ODict (<["x" := VInt 1]> (<["y" := VInt 2]> ∅));
            ODict (<["x" := VInt 1]> (<["y" := VInt 3]> ∅))] in
  ∃ md h',
    compute_diff 8 (VRef 0%nat) (VRef 1%nat) (World h 0)
      = (Ok (VRef 2%nat), World h' 0) ∧
    h' !! 2%nat = Some (ODict md) ∧
    md !! "x" = None ∧
    ∃ le, md !! "y" = Some (VRef le) ∧
          h' !! le = Some (diff_entry (VInt 2) (VInt 3)).
Proof.
  intros h.
  destruct (proj1 compute_diff_shallow 8%nat h 0 (VRef 0%nat) (VRef 1%nat)
              (<["x" := VInt 1]> (<["y" := VInt 2]> ∅))
              (<["x" := VInt 1]> (<["y" := VInt 3]> ∅))
              (λ k, bool_decide (k = "x")))
    as (md & h' & Hrun & _ & Hld & Hk).
  - intros l o v Hl Hc. destruct l as [|[|l]]; simpl in Hl; [| |done].
    + injection Hl as <-. destruct Hc as [k Hk].
      destruct (decide (k = "x")) as [->|]; [by simplify_map_eq|].
      destruct (decide (k = "y")) as [->|]; by simplify_map_eq.
    + injection Hl as <-. destruct Hc as [k Hk].
      destruct (decide (k = "x")) as [->|]; [by simplify_map_eq|].
      destruct (decide (k = "y")) as [->|]; by simplify_map_eq.
  - reflexivity.
  - reflexivity.
  - intros k Hk. rewrite !dom_insert_L, dom_empty_L in Hk.
    repeat (apply elem_of_union in Hk as [Hk|Hk]);
      try (by apply not_elem_of_empty in Hk);
      apply elem_of_singleton in Hk as ->; vm_compute; reflexivity.
  - exists md, h'. split_and!; [exact Hrun | exact Hld | |].
    + apply (Hk "x"). by right.
    + destruct (proj1 (Hk "y")) as (le & Hle & Hentry).
      * rewrite !dom_insert_L. apply elem_of_union_l, elem_of_union_r,
          elem_of_union_l, elem_of_singleton. reflexivity.
      * reflexivity.
      * exists le. split; [exact Hle|exact Hentry].
Defined.

(** ** The step budget *)

Lemma bind_inv {A B} (m : M A) (f : A → M B) w b w' :
  bind m f w = (Ok b, w') →
  ∃ a w1, m w = (Ok a, w1) ∧ f a w1 = (Ok b, w').
Proof.
  unfold bind. destruct (m w) as [[a|e] w1]; [|done]. intros H. by exists a, w1.
Qed.

Lemma loop_body_appends depth r graph c state logs w state' logs' next w' :
  loop_body depth r graph c state logs w = (Ok (state', logs', next), w') →
  ∃ rec, logs' = (logs ++ [rec])%list.
Proof.
  unfold loop_body. destruct (Graph.nodes graph !! c) as [cfg|]; [|done].
  intros H.
  apply bind_inv in H as (before & w1 & _ & H).
  apply bind_inv in H as (started & w2 & _ & H).
  apply bind_inv in H as (st & w3 & _ & H).
  apply bind_inv in H as (finished & w4 & _ & H).
  apply bind_inv in H as (diff & w5 & _ & H).
  apply bind_inv in H as (cur & w6 & _ & H).
  injection H as <- <- <- <-. eauto.
Qed.

Lemma run_loop_bound depth r graph budget :
  ∀ state logs current w state' logs' w',
    run_loop depth r graph budget state logs current w
      = (Ok (state', logs'), w') →
    (length logs' ≤ length logs + budget)%nat.
Proof.
  induction budget as [|budget IH]; intros state logs current w state' logs' w' H.
  - rewrite run_loop_exhausted in H. injection H as <- <- <-. lia.
  - destruct current as [c|].
    + simpl in H. apply bind_inv in H as ([[st1 logs1] next] & w1 & Hbody & H).
      simpl in H. apply IH in H.
      apply loop_body_appends in Hbody as [rec ->].
      rewrite length_app in H. simpl in H. lia.
    + rewrite run_loop_done in H. injection H as <- <- <-. lia.
Qed.

Lemma run_loop_exhausts depth r graph (Inv : string → val → world → Prop) :
  (∀ c st logs w,
     Inv c st w →
     ∃ st' logs' c' w',
       loop_body depth r graph c st logs w = (Ok (st', logs', Some c'), w') ∧
       Inv c' st' w') →
  ∀ budget c st logs w,
    Inv c st w →
    ∃ st' logs' c' w',
      run_loop depth r graph budget st logs (Some c) w = (Ok (st', logs'), w') ∧
      length logs' = (length logs + budget)%nat ∧ Inv c' st' w'.
Proof.
  intros Hstep. induction budget as [|budget IH]; intros c st logs w HI.
  - exists st, logs, c, w. split_and!; [done | lia | done].
  - destruct (Hstep c st logs w HI) as (st1 & logs1 & c1 & w1 & Hbody & HI1).
    destruct (IH c1 st1 logs1 w1 HI1) as (st' & logs' & c' & w' & Hrun & Hlen & HI').
    exists st', logs', c', w'. split_and!; [|  |done].
    + by rewrite (run_loop_step _ _ _ _ _ _ _ _ _ _ _ _ Hbody).
    + apply loop_body_appends in Hbody as [rec ->].
      rewrite length_app in Hlen. simpl in Hlen. lia.
Qed.

(** C3: exhausting the step budget is silent.  A run never returns more
    records than [max_steps]; and when every pass of the loop that the
    traversal can reach runs its node and selects a next node, so that no
    terminating transition is ever reached, [run_graph] returns, without
    raising, exactly [max_steps] records and the state reached by then.
    The two-node cycle with unconditional edges, run with [max_steps = 10],
    returns the ten records of [A, B, A, B, ...] and the state that the ten
    executions built. *)
Theorem step_budget_is_silent :
  (∀ depth r graph initial_state max_steps w state logs w',
     run_graph depth r graph initial_state max_steps w
       = (Ok (state, logs), w') →
     Z.of_nat (length logs) ≤ Z.max 0 max_steps) ∧
  (∀ depth r graph initial_state max_steps w
     (Inv : string → val → world → Prop) state0 w0,
     deepcopy depth initial_state w = (Ok state0, w0) →
     Inv (Graph.entrypoint graph) state0 w0 →
     (∀ c st logs w1,
        Inv c st w1 →
        ∃ st' logs' c' w2,
          loop_body depth r graph c st logs w1
            = (Ok (st', logs', Some c'), w2) ∧
          Inv c' st' w2) →
     ∃ state logs c w',
       run_graph depth r graph initial_state max_steps w
         = (Ok (state, logs), w') ∧
       Z.of_nat (length logs) = Z.max 0 max_steps ∧
       Inv c state w') ∧
  match run_graph 8 counting_registry cycle_graph (VRef 0%nat) 10
          (World [ODict ∅] 0) with
  | (Ok (state, logs), w') =>
      map StepLog.node logs
        = ["A"; "B"; "A"; "B"; "A"; "B"; "A"; "B"; "A"; "B"] ∧
      reads_as (w_heap w') (LDict [("n", LInt 10)]) state = true
  | _ => False
  end.
Proof.
  split_and!.
  - intros depth r graph initial_state max_steps w state logs w' H.
    unfold run_graph in H. apply bind_inv in H as (st0 & w0 & _ & H).
    apply run_loop_bound in H. simpl in H. lia.
  - intros depth r graph initial_state max_steps w Inv state0 w0
      Hcopy HI Hstep.
    destruct (run_loop_exhausts depth r graph Inv Hstep (Z.to_nat max_steps)
                _ _ [] _ HI) as (st' & logs' & c' & w' & Hrun & Hlen & HI').
    exists st', logs', c', w'. split_and!; [|simpl in Hlen; lia|done].
    unfold run_graph. by rewrite (bind_ok _ _ _ _ _ Hcopy).
  - vm_compute. split; reflexivity.
Qed.

Lemma deepcopy_empty_dict depth l h t :
  h !! l = Some (ODict ∅) →
  deepcopy (S depth) (VRef l) (World h t) =
    (Ok (VRef (length h)), World (h ++ [ODict ∅]) t).
Proof.
  intros Hl. unfold deepcopy. simpl. rewrite lookup_empty.
  unfold bind, deref, reading, alloc. simpl. rewrite Hl.
  by rewrite map_to_list_empty.
Qed.

Lemma compute_diff_empty_dicts depth lb la h t :
  h !! lb = Some (ODict ∅) → h !! la = Some (ODict ∅) →
  compute_diff depth (VRef lb) (VRef la) (World h t) =
    (Ok (VRef (length h)), World (h ++ [ODict ∅]) t).
Proof.
  intros Hb Ha.
  assert (Hb' : as_dict (h ++ [ODict ∅]) (VRef lb) = Some ∅).
  { simpl. rewrite lookup_app_l by (by eapply lookup_lt_Some). by rewrite Hb. }
  assert (Ha' : as_dict (h ++ [ODict ∅]) (VRef la) = Some ∅).
  { simpl. rewrite lookup_app_l by (by eapply lookup_lt_Some). by rewrite Ha. }
  unfold compute_diff. unfold bind at 1. unfold alloc at 1. simpl.
  rewrite (bind_ok _ _ _ _ _ (keys_ok _ _ (World (h ++ [ODict ∅]) t) Hb')).
  rewrite (bind_ok _ _ _ _ _ (keys_ok _ _ (World (h ++ [ODict ∅]) t) Ha')).
  rewrite dom_empty_L, (left_id_L ∅ (∪)), elements_empty. done.
Qed.

Lemma idle_cycle_step c st logs w :
  idle_inv c st w →
  ∃ st' logs' c' w',
    loop_body 8 idle_registry cycle_graph c st logs w
      = (Ok (st', logs', Some c'), w') ∧
    idle_inv c' st' w'.
Proof.
  destruct w as [h t]. intros (Hc & -> & H1). simpl in H1.
  assert (H1' : (h ++ [ODict ∅]) !! 1%nat = Some (ODict ∅)).
  { rewrite lookup_app_l; [done|]. by eapply lookup_lt_Some. }
  assert (Hlen : (h ++ [ODict ∅]) !! length h = Some (ODict ∅)).
  { by rewrite lookup_app_r, Nat.sub_diag. }
  pose proof (deepcopy_empty_dict 7 1 h t H1) as Hcopy.
  pose proof (compute_diff_empty_dicts 8 (length h) 1 _ t Hlen H1') as Hdiff.
  destruct Hc as [-> | ->].
  - eexists _, _, "B", _. split.
    + erewrite (loop_body_choose 8 idle_registry cycle_graph "A" node_A);
        [reflexivity | reflexivity | exact Hcopy | reflexivity | exact Hdiff].
    + split_and!; [by right | done |]. simpl.
      rewrite lookup_app_l; [done|]. by eapply lookup_lt_Some.
  - eexists _, _, "A", _. split.
    + erewrite (loop_body_choose 8 idle_registry cycle_graph "B" node_B);
        [reflexivity | reflexivity | exact Hcopy | reflexivity | exact Hdiff].
    + split_and!; [by left | done |]. simpl.
      rewrite lookup_app_l; [done|]. by eapply lookup_lt_Some.
Qed.

Lemma step_budget_is_silent_witness :
  ∃ state logs c w',
    run_graph 8 idle_registry cycle_graph (VRef 0%nat) 10 (World [ODict ∅] 0)
      = (Ok (state, logs), w') ∧
    Z.of_nat (length logs) = Z.max 0 10 ∧
    idle_inv c state w'.
Proof.
  destruct step_budget_is_silent as (_ & Hexhaust & _).
  refine (Hexhaust 8%nat idle_registry cycle_graph
            (VRef 0%nat) 10 (World [ODict ∅] 0) idle_inv
            (VRef 1%nat) (World [ODict ∅; ODict ∅] 0) _ _ idle_cycle_step).
  - exact (deepcopy_empty_dict 7 0 [ODict ∅] 0 eq_refl).
  - split_and!; [by left | done | done].
Defined.

(** ** Ownership of the working state *)

Lemma agree_below_refl n h : agree_below n h h.
Proof. by intros l Hl. Qed.

Lemma agree_below_trans n h1 h2 h3 :
  agree_below n h1 h2 → agree_below n h2 h3 → agree_below n h1 h3.
Proof. intros H12 H23 l Hl. rewrite H23 by done. by apply H12. Qed.

Lemma reach_fresh n h v l :
  fresh_closed n h → fresh_val n v → reach h v l → (n ≤ l)%nat.
Proof.
  intros Hcl Hv Hr. induction Hr as [l|l o v l' Hl Hc _ IH]; [done|].
  apply IH. by eapply Hcl.
Qed.

Section keeps.
Context (n : nat).

Lemma keeps_ret {A} (a : A) (Q : A → Prop) : Q a → keeps n (ret a) Q.
Proof.
  intros Ha w Hw. simpl. split_and!; [done | apply agree_below_refl |].
  by intros ? [= <-].
Qed.

Lemma keeps_raise {A} e (Q : A → Prop) : keeps n (raise e) Q.
Proof.
  intros w Hw. simpl. split_and!; [done | apply agree_below_refl | done].
Qed.

Lemma keeps_reading {A} (f : heap → outcome A) (Q : A → Prop) :
  (∀ h a, fresh_closed n h → f h = Ok a → Q a) → keeps n (reading f) Q.
Proof.
  intros Hf w Hw. simpl. split_and!; [done | apply agree_below_refl |].
  intros a Ha. eapply Hf; [apply Hw | done].
Qed.

Lemma keeps_lift {A} (x : outcome A) (Q : A → Prop) :
  (∀ a, x = Ok a → Q a) → keeps n (lift x) Q.
Proof.
  intros Hx w Hw. simpl. split_and!; [done | apply agree_below_refl | done].
Qed.

Lemma keeps_utcnow : keeps n utcnow (λ _, True).
Proof.
  intros w Hw. simpl. split_and!; [done | apply agree_below_refl | done].
Qed.

Lemma keeps_bind {A B} (m : M A) (f : A → M B) Q Q' :
  keeps n m Q → (∀ a, Q a → keeps n (f a) Q') → keeps n (bind m f) Q'.
Proof.
  intros Hm Hf w Hw. destruct (Hm w Hw) as (Hg & Hag & HQ).
  unfold bind. destruct (m w) as [[a|e] w1]; simpl in *; [|done].
  destruct (Hf a (HQ a eq_refl) w1 Hg) as (Hg' & Hag' & HQ').
  split_and!; [done | by eapply agree_below_trans | done].
Qed.

Lemma keeps_weaken {A} (m : M A) (Q Q' : A → Prop) :
  (∀ a, Q a → Q' a) → keeps n m Q → keeps n m Q'.
Proof.
  intros HQ Hm w Hw. destruct (Hm w Hw) as (Hg & Hag & H).
  split_and!; [done | done |]. intros a Ha. by apply HQ, H.
Qed.

Lemma keeps_foldM {A B} (f : B → A → M B) (I : B → Prop) xs :
  (∀ b x, I b → keeps n (f b x) I) →
  ∀ b, I b → keeps n (foldM f b xs) I.
Proof.
  intros Hf. induction xs as [|x xs IH]; intros b Hb; simpl.
  - by apply keeps_ret.
  - eapply keeps_bind; [by apply Hf|]. intros b' Hb'. by apply IH.
Qed.

Lemma keeps_alloc o :
  (∀ v, child o v → fresh_val n v) → keeps n (alloc o) (λ l, (n ≤ l)%nat).
Proof.
  intros Ho [h t] [Hlen Hcl]. simpl in *. split_and!.
  - split; simpl; [rewrite length_app; lia|].
    intros l o' v Hl Hlook Hc.
    destruct (decide (l < length h)%nat) as [Hlt|Hge].
    + rewrite lookup_app_l in Hlook by done. by eapply Hcl.
    + rewrite lookup_app_r in Hlook by lia.
      destruct (l - length h)%nat; simpl in Hlook; [|done].
      injection Hlook as <-. by apply Ho.
  - intros l Hl. rewrite lookup_app_l; [done | lia].
  - by intros a [= <-].
Qed.

Lemma keeps_setitem y k v :
  (n ≤ y)%nat → fresh_val n v →
  keeps n (with_heap (setitem y k v)) (λ _, True).
Proof.
  intros Hy Hv [h t] [Hlen Hcl]. simpl in *. unfold setitem.
  destruct (h !! y) as [[d|xs]|] eqn:Hlook;
    try (split_and!; [done | apply agree_below_refl | done]).
  split_and!; [split; simpl| |done].
  - by rewrite length_insert.
  - intros l o v' Hl Hlook' Hc. destruct (decide (l = y)) as [->|Hne].
    + rewrite list_lookup_insert_eq in Hlook' by (by eapply lookup_lt_Some).
      injection Hlook' as <-. destruct Hc as [k' Hk'].
      destruct (decide (k = k')) as [->|Hk].
      * rewrite lookup_insert_eq in Hk'. by injection Hk' as <-.
      * rewrite lookup_insert_ne in Hk' by done.
        eapply Hcl; [exact Hl | exact Hlook | by exists k'].
    + rewrite list_lookup_insert_ne in Hlook' by done. by eapply Hcl.
  - intros l Hl. rewrite list_lookup_insert_ne; [done | lia].
Qed.

Lemma keeps_append y v :
  (n ≤ y)%nat → fresh_val n v →
  keeps n (with_heap (append y v)) (λ _, True).
Proof.
  intros Hy Hv [h t] [Hlen Hcl]. simpl in *. unfold append.
  destruct (h !! y) as [[d|xs]|] eqn:Hlook;
    try (split_and!; [done | apply agree_below_refl | done]).
  split_and!; [split; simpl| |done].
  - by rewrite length_insert.
  - intros l o v' Hl Hlook' Hc. destruct (decide (l = y)) as [->|Hne].
    + rewrite list_lookup_insert_eq in Hlook' by (by eapply lookup_lt_Some).
      injection Hlook' as <-. simpl in Hc.
      apply elem_of_app in Hc as [Hc|Hc].
      * eapply Hcl; [exact Hl | exact Hlook | exact Hc].
      * apply list_elem_of_singleton in Hc. by subst.
    + rewrite list_lookup_insert_ne in Hlook' by done. by eapply Hcl.
  - intros l Hl. rewrite list_lookup_insert_ne; [done | lia].
Qed.
End keeps.

Lemma memo_fresh_insert n memo l y :
  memo_fresh n memo → (n ≤ y)%nat → memo_fresh n (<[l := y]> memo).
Proof.
  intros Hm Hy l' y' H. destruct (decide (l = l')) as [->|Hne].
  - rewrite lookup_insert_eq in H. by injection H as <-.
  - rewrite lookup_insert_ne in H by done. by eapply Hm.
Qed.

Lemma keeps_deepcopy_memo n depth :
  ∀ memo x,
    memo_fresh n memo →
    keeps n (deepcopy_memo depth memo x)
      (λ r, fresh_val n r.1 ∧ memo_fresh n r.2).
Proof.
  induction depth as [|depth IH]; intros memo x Hmemo.
  - destruct x as [| | | |l]; simpl; try (by apply keeps_ret).
    destruct (memo !! l) as [y|] eqn:Hy.
    + apply keeps_ret. split; [by eapply Hmemo | done].
    + apply keeps_raise.
  - destruct x as [| | | |l]; simpl; try (by apply keeps_ret).
    destruct (memo !! l) as [y|] eqn:Hy.
    { apply keeps_ret. split; [by eapply Hmemo | done]. }
    eapply keeps_bind with (Q := λ _, True).
    { by apply keeps_reading. }
    intros [d|xs] _.
    + eapply keeps_bind; [by apply keeps_alloc; intros v [k Hk]|].
      intros y Hfresh. simpl in Hfresh.
      eapply keeps_bind.
      * apply keeps_foldM with (I := memo_fresh n);
          [|by apply memo_fresh_insert].
        intros memo' kv Hmemo'.
        eapply keeps_bind; [by apply IH|]. intros r [Hr1 Hr2].
        eapply keeps_bind; [by apply keeps_setitem|]. intros _ _.
        by apply keeps_ret.
      * intros memo' Hmemo'. by apply keeps_ret.
    + eapply keeps_bind;
        [by apply keeps_alloc; intros v Hv; apply elem_of_nil in Hv|].
      intros y Hfresh. simpl in Hfresh.
      eapply keeps_bind.
      * apply keeps_foldM with (I := memo_fresh n);
          [|by apply memo_fresh_insert].
        intros memo' a Hmemo'.
        eapply keeps_bind; [by apply IH|]. intros r [Hr1 Hr2].
        eapply keeps_bind; [by apply keeps_append|]. intros _ _.
        by apply keeps_ret.
      * intros memo' Hmemo'. by apply keeps_ret.
Qed.

Lemma keeps_deepcopy n depth x : keeps n (deepcopy depth x) (fresh_val n).
Proof.
  unfold deepcopy. eapply keeps_bind.
  - apply keeps_deepcopy_memo. by intros l y H.
  - intros r [Hr _]. by apply keeps_ret.
Qed.

Lemma keeps_get n x k :
  fresh_val n x → keeps n (get x k) (fresh_val n).
Proof.
  intros Hx. apply keeps_reading. intros h a Hcl.
  destruct x as [| | | |l]; simpl; try done.
  destruct (h !! l) as [[d|xs]|] eqn:Hl; try done.
  intros [= <-]. unfold dict_get.
  destruct (d !! k) as [v|] eqn:Hk; [|done]. simpl.
  eapply Hcl; [exact Hx | exact Hl | by exists k].
Qed.

Lemma keeps_compute_diff n depth before after :
  fresh_val n before → fresh_val n after →
  keeps n (compute_diff depth before after) (fresh_val n).
Proof.
  intros Hb Ha. unfold compute_diff.
  eapply keeps_bind; [by apply keeps_alloc; intros v [k Hk]|].
  intros diff Hdiff. simpl in Hdiff.
  eapply keeps_bind with (Q := λ _, True); [by apply keeps_reading|].
  intros kb _.
  eapply keeps_bind with (Q := λ _, True); [by apply keeps_reading|].
  intros ka _.
  eapply keeps_bind with (Q := λ _, True).
  - unfold for_each. apply keeps_foldM with (I := λ _, True); [|done].
    intros _ k _.
    eapply keeps_bind; [by apply keeps_get|]. intros b Hb'.
    eapply keeps_bind; [by apply keeps_get|]. intros a Ha'.
    eapply keeps_bind with (Q := λ _, True); [by apply keeps_reading|].
    intros same _. destruct same; simpl; [by apply keeps_ret|].
    eapply keeps_bind; [by apply keeps_get|]. intros b2 Hb2.
    eapply keeps_bind; [by apply keeps_get|]. intros a2 Ha2.
    eapply keeps_bind.
    + apply keeps_alloc. intros v [k' Hk'].
      destruct (decide (k' = "before")) as [->|Hne1].
      { rewrite lookup_insert_eq in Hk'. by injection Hk' as <-. }
      rewrite lookup_insert_ne in Hk' by done.
      destruct (decide (k' = "after")) as [->|Hne2].
      { rewrite lookup_insert_eq in Hk'. by injection Hk' as <-. }
      by rewrite lookup_insert_ne in Hk'.
    + intros entry Hentry. simpl in Hentry. by apply keeps_setitem.
  - intros _ _. by apply keeps_ret.
Qed.

Lemma obtained_fresh n h state v :
  (n ≤ length h)%nat → fresh_closed n h → fresh_val n state →
  obtained h state v → fresh_val n v.
Proof.
  intros Hlen Hcl Hst. destruct v as [| | | |l]; simpl; try done.
  intros [Hr|Hl]; [by eapply reach_fresh | lia].
Qed.

Lemma keeps_call n fn state :
  local fn → fresh_val n state →
  keeps n (call_maybe_async fn state) (fresh_val n).
Proof.
  intros Hloc Hst w [Hlen Hcl].
  destruct (Hloc state w) as (F1 & F2 & F3 & F4).
  split_and!; [split| |].
  - lia.
  - intros l o v Hl Hlook Hc.
    destruct (decide (w_heap w !! l = Some o)) as [Hold|Hnew].
    + by eapply Hcl.
    + eapply obtained_fresh; [exact Hlen | exact Hcl | exact Hst |].
      by eapply F3.
  - intros l Hl. apply F2; [lia|]. intros Hr.
    pose proof (reach_fresh _ _ _ _ Hcl Hst Hr). lia.
  - intros v Hv. eapply obtained_fresh; [exact Hlen | exact Hcl | exact Hst |].
    by apply F4.
Qed.

Lemma keeps_execute_node n depth r node_cfg state :
  local_registry r → fresh_val n state →
  keeps n (execute_node depth r node_cfg state) (fresh_val n).
Proof.
  intros [Hnodes Htools] Hst. unfold execute_node.
  eapply keeps_bind with (Q := local).
  - destruct (NodeConfig.type node_cfg).
    + apply keeps_lift. unfold get_node. intros fn.
      destruct (_ !! _) as [fn'|] eqn:Hfn; [|done].
      intros [= <-]. by eapply Hnodes.
    + destruct (negb _); [apply keeps_raise|].
      apply keeps_lift. unfold get_tool. intros fn.
      destruct (_ !! _) as [fn'|] eqn:Hfn; [|done].
      intros [= <-]. by eapply Htools.
  - intros fn Hfn. eapply keeps_bind; [by apply keeps_call|].
    intros v Hv. by apply keeps_ret.
Qed.

Lemma keeps_loop_body n depth r graph current state logs :
  local_registry r → fresh_val n state →
  keeps n (loop_body depth r graph current state logs)
    (λ step, fresh_val n step.1.1).
Proof.
  intros Hr Hst. unfold loop_body.
  destruct (Graph.nodes graph !! current) as [node_cfg|]; [|apply keeps_raise].
  eapply keeps_bind; [apply keeps_deepcopy|]. intros before Hbefore.
  eapply keeps_bind; [apply keeps_utcnow|]. intros started _.
  eapply keeps_bind; [by apply keeps_execute_node|]. intros state' Hst'.
  eapply keeps_bind; [apply keeps_utcnow|]. intros finished _.
  eapply keeps_bind; [by apply keeps_compute_diff|]. intros diff _.
  eapply keeps_bind with (Q := λ _, True); [by apply keeps_reading|].
  intros next _. by apply keeps_ret.
Qed.

Lemma keeps_run_loop n depth r graph budget :
  local_registry r →
  ∀ state logs current,
    fresh_val n state →
    keeps n (run_loop depth r graph budget state logs current)
      (λ res, fresh_val n res.1).
Proof.
  intros Hr. induction budget as [|budget IH]; intros state logs current Hst.
  - destruct current; by apply keeps_ret.
  - destruct current as [c|]; [|by apply keeps_ret]. simpl.
    eapply keeps_bind; [by apply keeps_loop_body|].
    intros step Hstep. by apply IH.
Qed.

Lemma keeps_run_graph n depth r graph initial_state max_steps :
  local_registry r →
  keeps n (run_graph depth r graph initial_state max_steps)
    (λ res, fresh_val n res.1).
Proof.
  intros Hr. unfold run_graph.
  eapply keeps_bind; [apply keeps_deepcopy|].
  intros state Hst. by apply keeps_run_loop.
Qed.

Lemma good_start w : good (length (w_heap w)) w.
Proof.
  split; [done|]. intros l o v Hl Hlook.
  apply lookup_lt_Some in Hlook. lia.
Qed.

(** C7: [run_graph] works on a deep copy of the initial state.  When the
    registered functions act on the working state only, every cell of the
    store that exists when [run_graph] is called, and so the caller's
    initial state with all that is nested in it, holds after the run what
    it held before, whether the run returns or raises; and the state that
    a run returns is a cell created by the run, not the caller's. *)
Theorem run_graph_leaves_initial_state depth r graph initial_state
    max_steps w :
  local_registry r →
  let res := run_graph depth r graph initial_state max_steps w in
  (∀ l, (l < length (w_heap w))%nat →
        w_heap res.2 !! l = w_heap w !! l) ∧
  (∀ l, reach (w_heap w) initial_state l →
        (l < length (w_heap w))%nat →
        w_heap res.2 !! l = w_heap w !! l) ∧
  (∀ state logs, res.1 = Ok (state, logs) →
                 fresh_val (length (w_heap w)) state).
Proof.
  intros Hr res.
  destruct (keeps_run_graph (length (w_heap w)) depth r graph initial_state
              max_steps Hr w (good_start w)) as (_ & Hag & Hres).
  split_and!.
  - exact Hag.
  - intros l _ Hl. by apply Hag.
  - intros state logs Hok. exact (Hres _ Hok).
Qed.

Lemma local_appender k n : local (appender k (VInt n)).
Proof.
  intros state [h t]. simpl.
  unfold call_maybe_async, appender, bind, get, reading, deref; simpl.
  destruct (as_dict h state) as [d|] eqn:Hd; simpl;
    [|split_and!; [done | done | by intros l o v H1 H2 | done]].
  destruct (dict_get d k) as [| | | |li] eqn:Hk; simpl;
    try (split_and!; [done | done | by intros l o v H1 H2 | done]).
  destruct (h !! li) as [[d'|ys]|] eqn:Hli; simpl;
    try (split_and!; [done | done | by intros l o v H1 H2 | done]).
  unfold append. rewrite Hli.
  assert (Hreach : reach h state li).
  { destruct state as [| | | |ls]; simpl in Hd; try done.
    destruct (h !! ls) as [[ds|]|] eqn:Hls; try done. injection Hd as ->.
    eapply reach_step; [exact Hls| |apply reach_here].
    unfold dict_get in Hk. destruct (d !! k) as [x|] eqn:Hx; [|done].
    simpl in Hk. subst x. by exists k. }
  split_and!.
  - by rewrite length_insert.
  - intros l Hl Hnr. rewrite list_lookup_insert_ne; [done|]. by intros <-.
  - intros l o v Hlook Hne Hc. destruct (decide (l = li)) as [->|Hneq].
    + rewrite list_lookup_insert_eq in Hlook by (by eapply lookup_lt_Some).
      injection Hlook as <-. simpl in Hc.
      apply elem_of_app in Hc as [Hc|Hc].
      * destruct v as [| | | |l']; simpl; try done. left.
        destruct state as [| | | |ls]; simpl in Hd; try done.
        destruct (h !! ls) as [[ds|]|] eqn:Hls; try done. injection Hd as ->.
        eapply reach_step; [exact Hls| |].
        { unfold dict_get in Hk. destruct (d !! k) as [x|] eqn:Hx; [|done].
          simpl in Hk. subst x. by exists k. }
        eapply reach_step; [exact Hli | exact Hc | apply reach_here].
      * apply list_elem_of_singleton in Hc. by subst.
    + rewrite list_lookup_insert_ne in Hlook by done. done.
  - intros v [= <-]. destruct state as [| | | |ls]; simpl in *; try done.
    left. apply reach_here.
Qed.

Lemma local_appending_registry : local_registry appending_registry.
Proof.
  split; intros name fn; simpl.
  - destruct (decide (name = "A")) as [->|Hne].
    + rewrite lookup_insert_eq. intros [= <-]. apply local_appender.
    + rewrite lookup_insert_ne by done. by rewrite lookup_empty.
  - by rewrite lookup_empty.
Qed.

Lemma run_graph_leaves_initial_state_witness :
  let w := World caller_heap 0 in
  let res := run_graph 8 appending_registry self_loop_graph (VRef 1%nat) 3 w in
  w_heap res.2 !! 0%nat = Some (OList [VInt 1]) ∧
  w_heap res.2 !! 1%nat = Some (ODict (<["items" := VRef 0%nat]> ∅)) ∧
  match res.1 with
  | Ok (state, logs) =>
      reads_as (w_heap res.2)
        (LDict [("items", LList [LInt 1; LInt 2; LInt 2; LInt 2])])
        state = true
  | Raise _ => False
  end.
Proof.
  intros w res.
  pose proof (proj1 (run_graph_leaves_initial_state 8 appending_registry
                       self_loop_graph (VRef 1%nat) 3 w
                       local_appending_registry)) as H.
  split_and!.
  - exact (H 0%nat ltac:(simpl; lia)).
  - exact (H 1%nat ltac:(simpl; lia)).
  - vm_compute. reflexivity.
Defined.

(** ** The path of a run *)

Lemma choose_from_some depth h state cands t :
  choose_from depth h state cands = Ok (Some t) →
  t ≠ "__end__" ∧
  ∃ e, e ∈ cands ∧ EdgeConfig.target e = t ∧ matches depth h state e.
Proof.
  induction cands as [|e rest IH]; [done|].
  destruct (decide (unconditional e)) as [Hu|Hu].
  - rewrite choose_from_unconditional by done. unfold end_or.
    case_bool_decide; [done|]. intros [= <-].
    split; [done|]. exists e. split_and!; [by left | done | by left].
  - rewrite choose_from_conditional by done.
    destruct (condition depth h state e) as [[]|] eqn:Hc; [| |done].
    + unfold end_or. case_bool_decide; [done|]. intros [= <-].
      split; [done|]. exists e. split_and!; [by left | done | by right].
    + intros H. destruct (IH H) as (Hne & e' & He' & Ht & Hm).
      split; [done|]. exists e'. split_and!; [by right | done | done].
Qed.

(** X1: what [choose_next_node] answers is never ["__end__"]; a node it
    answers is the target of an edge of the graph that leaves the current
    node and that is unconditional or has a condition that matches. *)
Theorem choose_next_node_answer depth h graph current state t :
  choose_next_node depth h graph current state = Ok (Some t) →
  t ≠ "__end__" ∧
  ∃ e, e ∈ Graph.edges graph ∧ EdgeConfig.source e = current ∧
       EdgeConfig.target e = t ∧ matches depth h state e.
Proof.
  unfold choose_next_node. intros H.
  apply choose_from_some in H as (Hne & e & He & Ht & Hm).
  apply list_elem_of_filter in He as [Hsrc He].
  split; [done|]. by exists e.
Qed.

Lemma choose_next_node_answer_witness :
  "B" ≠ "__end__" ∧
  ∃ e, e ∈ Graph.edges cycle_graph ∧ EdgeConfig.source e = "A" ∧
       EdgeConfig.target e = "B" ∧ matches 8 [] VNone e.
Proof.
  exact (choose_next_node_answer 8 [] cycle_graph "A" VNone "B" eq_refl).
Defined.

Lemma choose_next_node_linked depth h graph current state t :
  choose_next_node depth h graph current state = Ok (Some t) →
  t ≠ "__end__" ∧ linked graph current t.
Proof.
  unfold choose_next_node. intros H.
  apply choose_from_some in H as (Hne & e & He & Ht & Hm).
  apply list_elem_of_filter in He as [Hsrc He].
  split; [done|]. by exists e.
Qed.

Lemma loop_body_inv depth r graph c state logs w state' logs' next w' :
  loop_body depth r graph c state logs w = (Ok (state', logs', next), w') →
  ∃ node_cfg rec,
    Graph.nodes graph !! c = Some node_cfg ∧
    logs' = logs ++ [rec] ∧
    StepLog.node rec = c ∧
    StepLog.info rec = NodeConfig.description node_cfg ∧
    (∀ t, next = Some t → t ≠ "__end__" ∧ linked graph c t).
Proof.
  unfold loop_body. destruct (Graph.nodes graph !! c) as [cfg|]; [|done].
  intros H.
  apply bind_inv in H as (before & w1 & _ & H).
  apply bind_inv in H as (started & w2 & _ & H).
  apply bind_inv in H as (st & w3 & _ & H).
  apply bind_inv in H as (finished & w4 & _ & H).
  apply bind_inv in H as (diff & w5 & _ & H).
  apply bind_inv in H as (cur & w6 & Hcur & H).
  injection H as <- <- <- <-.
  exists cfg, (StepLog.mk c started finished diff (NodeConfig.description cfg)).
  split_and!; try done.
  intros t ->. unfold reading in Hcur. injection Hcur as Hcur _.
  by eapply choose_next_node_linked.
Qed.

Lemma run_loop_trace depth r graph budget :
  ∀ state logs current w state' logs' w',
    run_loop depth r graph budget state logs current w
      = (Ok (state', logs'), w') →
    ∃ new, logs' = logs ++ new ∧ trace graph current new.
Proof.
  induction budget as [|budget IH];
    intros state logs current w state' logs' w' H.
  - rewrite run_loop_exhausted in H. injection H as <- <- <-.
    exists []. split; [by rewrite app_nil_r | constructor].
  - destruct current as [c|].
    + simpl in H. apply bind_inv in H as ([[st1 logs1] next] & w1 & Hbody & H).
      simpl in H. apply IH in H as (new & -> & Htrace).
      apply loop_body_inv in Hbody
        as (cfg & rec & Hnode & -> & Hrec & Hinfo & Hnext).
      exists (rec :: new). split; [by rewrite <- app_assoc|].
      by econstructor.
    + rewrite run_loop_done in H. injection H as <- <- <-.
      exists []. split; [by rewrite app_nil_r | constructor].
Qed.

Lemma trace_chain graph current new :
  trace graph current new →
  chain graph (map StepLog.node new) ∧
  (∀ rec, head new = Some rec → current = Some (StepLog.node rec)) ∧
  Forall (λ rec, ∃ node_cfg,
            Graph.nodes graph !! StepLog.node rec = Some node_cfg ∧
            StepLog.info rec = NodeConfig.description node_cfg) new.
Proof.
  induction 1 as [current|c cfg rec next rest Hnode Hrec Hinfo Hnext Hrest IH].
  - split_and!; [done | done | constructor].
  - destruct IH as (Hchain & Hhead & Hall). split_and!.
    + simpl. split; [|done]. destruct rest as [|rec' rest']; [done|]. simpl.
      rewrite Hrec. pose proof (Hhead rec' eq_refl) as Hn.
      by apply Hnext.
    + intros rec0 [= <-]. by rewrite Hrec.
    + constructor; [|done]. exists cfg. by rewrite Hrec.
Qed.

(** X2: the records of a run that returns follow a path of the graph: the
    first record is the one of the entrypoint, every record is the record
    of a node of [graph.nodes] and carries its description, and the node
    of every record but the last has an edge to the node of the next. *)
Theorem run_graph_log_is_path depth r graph initial_state max_steps w
    state logs w' :
  run_graph depth r graph initial_state max_steps w
    = (Ok (state, logs), w') →
  (∀ rec, head logs = Some rec →
          StepLog.node rec = Graph.entrypoint graph) ∧
  Forall (λ rec, ∃ node_cfg,
            Graph.nodes graph !! StepLog.node rec = Some node_cfg ∧
            StepLog.info rec = NodeConfig.description node_cfg) logs ∧
  chain graph (map StepLog.node logs).
Proof.
  unfold run_graph. intros H.
  apply bind_inv in H as (st0 & w0 & _ & H).
  apply run_loop_trace in H as (new & -> & Htrace). simpl.
  apply trace_chain in Htrace as (Hchain & Hhead & Hall).
  split_and!; [|done|done].
  intros rec Hrec. specialize (Hhead rec Hrec). by injection Hhead as ->.
Qed.

Lemma run_graph_log_is_path_witness :
  ∃ state logs w',
    run_graph 8 counting_registry cycle_graph (VRef 0%nat) 3
      (World [ODict ∅] 0) = (Ok (state, logs), w') ∧
    map StepLog.node logs = ["A"; "B"; "A"] ∧
    chain cycle_graph (map StepLog.node logs).
Proof.
  destruct (run_graph 8 counting_registry cycle_graph (VRef 0%nat) 3
              (World [ODict ∅] 0)) as [[[state logs]|e] w'] eqn:Hrun;
    [|by vm_compute in Hrun].
  exists state, logs, w'. split_and!; [done| |].
  - vm_compute in Hrun. by injection Hrun as <- <- <-.
  - exact (proj2 (proj2 (run_graph_log_is_path _ _ _ _ _ _ _ _ _ Hrun))).
Defined.

(** ** The registry namespaces *)

(** X3: registering and resolving.  A function registered under a name is
    what the name resolves to in its namespace, the last registration
    winning; other names resolve as before; and the two namespaces do not
    see each other: a tool registered under a name does not make a
    COMPUTATION node of that name executable. *)
Theorem registry_round_trip :
  (∀ name fn r, get_node (register_node name fn r) name = Ok fn) ∧
  (∀ name fn r, get_tool (register_tool name fn r) name = Ok fn) ∧
  (∀ name fn fn' r,
     get_node (register_node name fn' (register_node name fn r)) name
       = Ok fn') ∧
  (∀ name other fn r,
     name ≠ other →
     get_node (register_node name fn r) other = get_node r other ∧
     get_tool (register_tool name fn r) other = get_tool r other) ∧
  (∀ name other fn r,
     get_tool (register_node name fn r) other = get_tool r other ∧
     get_node (register_tool name fn r) other = get_node r other) ∧
  (∀ depth name fn tool_name description state w,
     execute_node depth (register_tool name fn (Registry.mk ∅ ∅))
       (NodeConfig.mk name COMPUTATION tool_name description) state w =
     (Raise (KeyError ("Node function '" +:+ name
                       +:+ "' is not registered")), w)).
Proof.
  split_and!.
  - intros name fn r. unfold get_node, register_node. simpl.
    by rewrite lookup_insert_eq.
  - intros name fn r. unfold get_tool, register_tool. simpl.
    by rewrite lookup_insert_eq.
  - intros name fn fn' r. unfold get_node, register_node. simpl.
    by rewrite lookup_insert_eq.
  - intros name other fn r Hne. unfold get_node, get_tool, register_node,
      register_tool. simpl. by rewrite !lookup_insert_ne.
  - intros name other fn r. done.
  - intros depth name fn tool_name description state w.
    unfold execute_node, get_node. simpl. by rewrite lookup_empty.
Qed.

Lemma registry_round_trip_witness :
  get_node (register_node "B" incr (register_node "A" noop (Registry.mk ∅ ∅)))
    "A" = Ok noop.
Proof.
  destruct registry_round_trip as (H1 & _ & _ & H4 & _).
  rewrite (proj1 (H4 "B" "A" incr (register_node "A" noop (Registry.mk ∅ ∅))
                    ltac:(discriminate))).
  apply H1.
Defined.

(** ** Empty strings *)

Lemma choose_next_node_same_head depth h gid gname entry nodes pre post
    e e' current state :
  EdgeConfig.source e = EdgeConfig.source e' →
  (∀ rest, choose_from depth h state (e :: rest)
           = choose_from depth h state (e' :: rest)) →
  choose_next_node depth h (Graph.mk gid gname entry nodes (pre ++ e :: post))
    current state =
  choose_next_node depth h (Graph.mk gid gname entry nodes (pre ++ e' :: post))
    current state.
Proof.
  intros Hsrc Hhead. unfold choose_next_node. simpl. rewrite !filter_app.
  generalize (filter (λ e, EdgeConfig.source e = current) pre).
  intros cands. induction cands as [|c cands IH].
  - simpl. destruct (decide (EdgeConfig.source e = current)) as [Hs|Hs].
    + rewrite !filter_cons_True by congruence. apply Hhead.
    + rewrite !filter_cons_False by congruence. done.
  - simpl. by rewrite IH.
Qed.

(** X4: the empty string counts as not set.  An edge whose condition key
    is the empty string is unconditional: its operator and its value are
    not looked at, so that it is selected even where its comparison would
    be false or raise; and a TOOL node whose tool name is the empty string
    raises the missing-tool-name error, whatever the tool registry holds. *)
Theorem empty_string_is_unset :
  (∀ depth h gid gname entry nodes pre post src tgt op v current state,
     choose_next_node depth h
       (Graph.mk gid gname entry nodes
          (pre ++ EdgeConfig.mk src tgt (Some "") op v :: post))
       current state =
     choose_next_node depth h
       (Graph.mk gid gname entry nodes
          (pre ++ EdgeConfig.mk src tgt None None VNone :: post))
       current state) ∧
  (∀ depth h state src tgt op v rest,
     choose_from depth h state (EdgeConfig.mk src tgt (Some "") op v :: rest)
       = Ok (end_or tgt)) ∧
  (∀ depth r name description state w,
     execute_node depth r (NodeConfig.mk name TOOL (Some "") description)
       state w =
     (Raise (ValueError ("Tool node '" +:+ name
                         +:+ "' missing 'tool_name'")), w)).
Proof.
  split_and!.
  - intros. apply choose_next_node_same_head; [done|]. intros rest.
    by rewrite !choose_from_unconditional.
  - intros. by rewrite choose_from_unconditional.
  - done.
Qed.

(** ** Equality against a key that is not there *)

(** X5: [==] and [!=] do not raise on a key that is not in the state: the
    value looked up is [None], [==] holds exactly when the value of the
    edge is [None], and [!=] exactly when it is not. *)
Theorem equality_against_none depth h state e :
  _get_from_state h state (default "" (EdgeConfig.condition_key e)) = VNone →
  (EdgeConfig.operator e = Some "==" →
   condition depth h state e
     = Ok (bool_decide (EdgeConfig.value e = VNone))) ∧
  (EdgeConfig.operator e = Some "!=" →
   condition depth h state e
     = Ok (negb (bool_decide (EdgeConfig.value e = VNone)))).
Proof.
  intros Hlhs. unfold condition. rewrite Hlhs.
  assert (Heq : py_eq depth h VNone (EdgeConfig.value e)
                = Ok (bool_decide (EdgeConfig.value e = VNone))).
  { destruct depth, (EdgeConfig.value e); done. }
  split; intros ->; simpl; by rewrite Heq.
Qed.

Lemma equality_against_none_witness :
  let e := EdgeConfig.mk "A" "B" (Some "score") (Some "!=") (VInt 5) in
  condition 8 [ODict ∅] (VRef 0%nat) e = Ok true.
Proof.
  intros e.
  exact (proj2 (equality_against_none 8 [ODict ∅] (VRef 0%nat) e eq_refl)
           eq_refl).
Defined.

(** ** A node that does not return a state map *)

Lemma compute_diff_not_a_dict depth h t before after mb :
  as_dict h before = Some mb →
  in_heap h after → as_dict h after = None →
  compute_diff depth before after (World h t) =
    (Raise (no_attribute h after "keys"), World (h ++ [ODict ∅]) t).
Proof.
  intros Hb Hin Ha.
  assert (Hag : agree_below (length h) h (h ++ [ODict ∅])).
  { intros l Hl. by rewrite lookup_app_l. }
  unfold compute_diff. unfold bind at 1. unfold alloc at 1. simpl.
  rewrite (bind_ok _ _ _ _ _
             (keys_ok before mb (World (h ++ [ODict ∅]) t)
                (as_dict_frame _ _ _ _ Hag Hb))).
  unfold bind, keys, reading. simpl.
  destruct after as [| | | |l]; simpl in *; try done.
  unfold no_attribute, type_name. rewrite !lookup_app_l by done.
  by destruct (h !! l) as [[d|xs]|].
Qed.

(** X6: what a node returns is not checked.  When the function of a node
    returns a value that is not a dict (an integer, a string, a list), the
    node has run, and taking the diff then raises the [AttributeError] of
    [.keys()]: the run fails with it and returns no record. *)
Theorem node_result_must_be_a_dict depth r graph budget current node_cfg
    state logs w before w1 state' w2 mb :
  Graph.nodes graph !! current = Some node_cfg →
  deepcopy depth state w = (Ok before, w1) →
  execute_node depth r node_cfg state w1 = (Ok state', w2) →
  as_dict (w_heap w2) before = Some mb →
  in_heap (w_heap w2) state' → as_dict (w_heap w2) state' = None →
  run_loop depth r graph (S budget) state logs (Some current) w =
    (Raise (no_attribute (w_heap w2) state' "keys"),
     World (w_heap w2 ++ [ODict ∅]) (w_time w2)).
Proof.
  intros Hnode Hcopy Hexec Hb Hin Ha. apply run_loop_raise.
  eapply loop_body_diff_raise; [done.. |].
  destruct w2 as [h2 t2]. by eapply compute_diff_not_a_dict.
Qed.

Lemma node_result_must_be_a_dict_witness :
  run_loop 8 number_registry end_graph 3 (VRef 0%nat) [] (Some "A")
    (World [ODict ∅] 0) =
  (Raise (AttributeError "'int' object has no attribute 'keys'"),
   World [ODict ∅; ODict ∅; ODict ∅] 0).
Proof.
  refine (node_result_must_be_a_dict 8 number_registry end_graph 2 "A" node_A
            (VRef 0%nat) [] (World [ODict ∅] 0)
            (VRef 1%nat) (World [ODict ∅; ODict ∅] 0)
            (VInt 5) (World [ODict ∅; ODict ∅] 0) ∅
            eq_refl _ _ eq_refl I eq_refl); vm_compute; reflexivity.
Defined.

(** ** main.py: creating graphs *)

Lemma node_map_from (m : gmap string NodeConfig.t) ns k :
  foldl (λ m n, <[NodeConfig.name n := n]> m) m ns !! k =
    match last (filter (λ n, NodeConfig.name n = k) ns) with
    | Some n => Some n
    | None => m !! k
    end.
Proof.
  revert m. induction ns as [|n ns IH]; intros m; simpl; [done|].
  rewrite IH. destruct (decide (NodeConfig.name n = k)) as [Hk|Hk].
  - rewrite filter_cons_True by done. rewrite last_cons.
    destruct (last _); [done|]. subst k. by rewrite lookup_insert_eq.
  - rewrite filter_cons_False by done.
    destruct (last _); [done|]. by rewrite lookup_insert_ne.
Qed.

Lemma node_map_last ns k :
  node_map ns !! k = last (filter (λ n, NodeConfig.name n = k) ns).
Proof.
  unfold node_map. rewrite node_map_from. rewrite lookup_empty.
  by destruct (last _).
Qed.

Lemma node_map_named ns k n :
  node_map ns !! k = Some n → NodeConfig.name n = k ∧ n ∈ ns.
Proof.
  rewrite node_map_last. intros Hn. apply last_Some_elem_of in Hn.
  by apply list_elem_of_filter in Hn.
Qed.

(** X7: the node map of a custom graph holds, under each name, the last
    node of the request that has this name, and nothing under a name that
    no node of the request has; so every node is found under its own
    name. *)
Theorem node_map_lookup ns k :
  node_map ns !! k = last (filter (λ n, NodeConfig.name n = k) ns) ∧
  (∀ n, node_map ns !! k = Some n → NodeConfig.name n = k ∧ n ∈ ns) ∧
  (is_Some (node_map ns !! k) ↔ ∃ n, n ∈ ns ∧ NodeConfig.name n = k).
Proof.
  split_and!; [apply node_map_last | apply node_map_named |].
  rewrite node_map_last. split.
  - intros [n Hn]. apply last_Some_elem_of in Hn.
    apply list_elem_of_filter in Hn as [Hk Hn]. by exists n.
  - intros (n & Hn & Hk).
    destruct (last (filter (λ n, NodeConfig.name n = k) ns)) eqn:Hl;
      [done|].
    apply last_None in Hl.
    assert (Hin : n ∈ filter (λ n, NodeConfig.name n = k) ns)
      by (by apply list_elem_of_filter).
    rewrite Hl in Hin. by apply not_elem_of_nil in Hin.
Qed.

Lemma create_graph_custom uid template name ns es ep s :
  template ≠ Some "code_review_agent" →
  ns ≠ [] → es ≠ [] → ep ≠ "" →
  create_graph uid
    (GraphCreateRequest.mk template name (Some ns) (Some es) (Some ep)) s =
    (Respond (GraphCreateResponse.mk uid),
     Stores (<[uid := Graph.mk uid name ep (node_map ns) es]> (GRAPHS s))
            (RUNS s)).
Proof.
  intros Ht Hns Hes Hep. unfold create_graph. simpl.
  rewrite (bool_decide_false _ Ht). simpl.
  destruct ns as [|n ns]; [done|]. destruct es as [|e es]; [done|].
  simpl. by rewrite bool_decide_false.
Qed.

(** X8: the cases of [create_graph].  The template ["code_review_agent"],
    or a request with neither nodes nor edges whatever template it names,
    stores the built-in graph and ignores the rest of the request;
    otherwise a request without nodes or without edges (an empty list
    counts as none) and then a request without entrypoint (the empty
    string counts as none) are refused with status 400 and leave the
    stores as they were; any other request stores the custom graph, its
    entrypoint unchecked. *)
Theorem create_graph_cases uid payload s :
  (GraphCreateRequest.template payload = Some "code_review_agent" ∨
   (GraphCreateRequest.nodes payload = None ∧
    GraphCreateRequest.edges payload = None) →
   create_graph uid payload s =
     (Respond (GraphCreateResponse.mk uid),
      Stores (<[uid := create_code_review_template_graph uid
                         (GraphCreateRequest.name payload)]> (GRAPHS s))
             (RUNS s))) ∧
  (GraphCreateRequest.template payload ≠ Some "code_review_agent" →
   ¬ (GraphCreateRequest.nodes payload = None ∧
      GraphCreateRequest.edges payload = None) →
   truthy_list (GraphCreateRequest.nodes payload) = false ∨
   truthy_list (GraphCreateRequest.edges payload) = false →
   create_graph uid payload s =
     (HTTPException 400
        "Either provide a template or both nodes and edges.", s)) ∧
  (GraphCreateRequest.template payload ≠ Some "code_review_agent" →
   truthy_list (GraphCreateRequest.nodes payload) = true →
   truthy_list (GraphCreateRequest.edges payload) = true →
   truthy (GraphCreateRequest.entrypoint payload) = false →
   create_graph uid payload s =
     (HTTPException 400
        "entrypoint is required when defining a custom graph.", s)) ∧
  (∀ ns es ep,
     GraphCreateRequest.template payload ≠ Some "code_review_agent" →
     GraphCreateRequest.nodes payload = Some ns → ns ≠ [] →
     GraphCreateRequest.edges payload = Some es → es ≠ [] →
     GraphCreateRequest.entrypoint payload = Some ep → ep ≠ "" →
     create_graph uid payload s =
       (Respond (GraphCreateResponse.mk uid),
        Stores (<[uid := Graph.mk uid (GraphCreateRequest.name payload) ep
                           (node_map ns) es]> (GRAPHS s))
               (RUNS s))).
Proof.
  unfold create_graph. split_and!.
  - intros [Ht|[Hn He]].
    + by rewrite (bool_decide_true _ Ht).
    + rewrite (bool_decide_true _ Hn), (bool_decide_true _ He).
      by rewrite orb_true_r.
  - intros Ht Hne Hor. rewrite (bool_decide_false _ Ht). simpl.
    destruct (bool_decide (GraphCreateRequest.nodes payload = None)) eqn:Hn,
      (bool_decide (GraphCreateRequest.edges payload = None)) eqn:He;
      simpl.
    + apply bool_decide_eq_true in Hn, He. by destruct Hne.
    + destruct Hor as [-> | ->]; simpl; by rewrite ?orb_true_r.
    + destruct Hor as [-> | ->]; simpl; by rewrite ?orb_true_r.
    + destruct Hor as [-> | ->]; simpl; by rewrite ?orb_true_r.
  - intros Ht Hn He Hep. rewrite (bool_decide_false _ Ht). simpl.
    destruct (GraphCreateRequest.nodes payload) as [[|n ns]|]; try done.
    destruct (GraphCreateRequest.edges payload) as [[|e es]|]; try done.
    simpl. by rewrite Hep.
  - intros ns es ep Ht Hn Hns He Hes Hep Hepne.
    destruct payload as [template name nodes edges entrypoint].
    simpl in *. subst nodes edges entrypoint.
    by apply create_graph_custom.
Qed.

Lemma create_graph_cases_witness :
  let payload :=
    GraphCreateRequest.mk (Some "unknown") (Some "mine") None None
      (Some "start") in
  create_graph "id-1" payload (Stores ∅ ∅) =
    (Respond (GraphCreateResponse.mk "id-1"),
     Stores (<["id-1" := create_code_review_template_graph "id-1"
                           (Some "mine")]> ∅) ∅) ∧
  create_graph "id-2"
    (GraphCreateRequest.mk None None (Some [node_A]) (Some [])
       (Some "A")) (Stores ∅ ∅) =
    (HTTPException 400
       "Either provide a template or both nodes and edges.", Stores ∅ ∅).
Proof.
  intros payload. split.
  - exact (proj1 (create_graph_cases "id-1" payload (Stores ∅ ∅))
             (or_intror (conj eq_refl eq_refl))).
  - refine (proj1 (proj2 (create_graph_cases "id-2"
              (GraphCreateRequest.mk None None (Some [node_A]) (Some [])
                 (Some "A")) (Stores ∅ ∅)))
              _ _ (or_intror eq_refl)).
    + discriminate.
    + intros [H _]. discriminate.
Defined.

(** X9: what [create_graph] does to the stores.  A request that is
    answered stores a graph under the id of the answer, the graph has this
    id, and each of its nodes is stored under its own name; the graphs
    under other ids and all runs are as before.  A request that is refused
    leaves both stores as they were. *)
Theorem create_graph_stores uid payload s :
  match create_graph uid payload s with
  | (Respond resp, s') =>
      GraphCreateResponse.graph_id resp = uid ∧
      RUNS s' = RUNS s ∧
      (∀ other, other ≠ uid → GRAPHS s' !! other = GRAPHS s !! other) ∧
      ∃ graph,
        GRAPHS s' !! uid = Some graph ∧ Graph.id graph = uid ∧
        ∀ k node_cfg, Graph.nodes graph !! k = Some node_cfg →
                      NodeConfig.name node_cfg = k
  | (_, s') => s' = s
  end.
Proof.
  unfold create_graph.
  destruct (bool_decide _ || _).
  - simpl. split_and!; [done | done | |].
    + intros other Hne. by rewrite lookup_insert_ne.
    + eexists. split_and!; [apply lookup_insert_eq | done |].
      intros k cfg H. simpl in H.
      repeat (apply lookup_insert_Some in H as [[<- <-]|[_ H]]; [done|]).
      by rewrite lookup_empty in H.
  - destruct (negb _ || negb _); [done|].
    destruct (negb (truthy _)); [done|].
    simpl. split_and!; [done | done | |].
    + intros other Hne. by rewrite lookup_insert_ne.
    + eexists. split_and!; [apply lookup_insert_eq | done |].
      intros k cfg H. simpl in H.
      by apply node_map_named in H as [H _].
Qed.

Lemma node_map_lookup_witness :
  let second := NodeConfig.mk "A" TOOL (Some "lint") None in
  node_map [node_A; node_B; second] !! "A" = Some second ∧
  NodeConfig.name second = "A" ∧ second ∈ [node_A; node_B; second].
Proof.
  intros second.
  destruct (node_map_lookup [node_A; node_B; second] "A") as (H1 & H2 & _).
  assert (H : node_map [node_A; node_B; second] !! "A" = Some second)
    by (rewrite H1; reflexivity).
  split; [exact H | exact (H2 second H)].
Defined.

(** ** main.py: running graphs *)

(** X10: the cases of [run_graph_sync].  An unknown graph id is answered
    with status 404, nothing is run and nothing is stored.  When the run
    returns, the answer carries the final state and the records, and the
    run is stored as completed with the same state and records, which is
    what [get_graph_state] then answers.  When the run raises, the error
    leaves the handler uncaught and the run stays stored as running, with
    the initial state and no records: it is never marked failed. *)
Theorem run_graph_sync_cases depth r run_id payload s w :
  let graph_id := GraphRunRequest.graph_id payload in
  let initial_state := GraphRunRequest.initial_state payload in
  (GRAPHS s !! graph_id = None →
   run_graph_sync depth r run_id payload s w =
     ((HTTPException 404 "Graph not found", s), w)) ∧
  (∀ graph final_state logs w',
     GRAPHS s !! graph_id = Some graph →
     run_graph depth r graph initial_state 1000 w
       = (Ok (final_state, logs), w') →
     let run := GraphRun.mk run_id (Graph.id graph) completed final_state
                  logs None in
     ∃ s',
       run_graph_sync depth r run_id payload s w =
         ((Respond (GraphRunSyncResponse.mk run_id final_state logs), s'),
          w') ∧
       GRAPHS s' = GRAPHS s ∧
       (∀ other, other ≠ run_id → RUNS s' !! other = RUNS s !! other) ∧
       get_graph_state run_id s' = Respond run) ∧
  (∀ graph e w',
     GRAPHS s !! graph_id = Some graph →
     run_graph depth r graph initial_state 1000 w = (Raise e, w') →
     let run := GraphRun.mk run_id (Graph.id graph) running initial_state
                  [] None in
     ∃ s',
       run_graph_sync depth r run_id payload s w = ((Uncaught e, s'), w') ∧
       GRAPHS s' = GRAPHS s ∧
       (∀ other, other ≠ run_id → RUNS s' !! other = RUNS s !! other) ∧
       get_graph_state run_id s' = Respond run).
Proof.
  intros graph_id initial_state. unfold run_graph_sync.
  fold graph_id initial_state. split_and!.
  - by intros ->.
  - intros graph final_state logs w' -> ->. eexists. split_and!; [done|done| |].
    + intros other Hne. simpl. by rewrite !lookup_insert_ne.
    + unfold get_graph_state. simpl. by rewrite lookup_insert_eq.
  - intros graph e w' -> ->. eexists. split_and!; [done|done| |].
    + intros other Hne. simpl. by rewrite !lookup_insert_ne.
    + unfold get_graph_state. simpl. by rewrite lookup_insert_eq.
Qed.

Lemma run_graph_sync_cases_witness :
  let s := Stores (<["g2" := score_graph]> ∅) ∅ in
  ∃ s',
    run_graph_sync 8 one_node_registry "run-1"
      (GraphRunRequest.mk "g2" (VRef 0%nat)) s (World [ODict ∅] 0) =
      ((Uncaught (TypeError
          "'<' not supported between instances of 'NoneType' and 'int'"),
        s'), World [ODict ∅; ODict ∅; ODict ∅; ODict ∅] 0) ∧
    GRAPHS s' = GRAPHS s ∧
    (∀ other, other ≠ "run-1" → RUNS s' !! other = RUNS s !! other) ∧
    get_graph_state "run-1" s' =
      Respond (GraphRun.mk "run-1" "g2" running (VRef 0%nat) [] None).
Proof.
  intros s.
  refine (proj2 (proj2 (run_graph_sync_cases 8 one_node_registry "run-1"
            (GraphRunRequest.mk "g2" (VRef 0%nat)) s (World [ODict ∅] 0)))
            score_graph _ _ eq_refl _).
  vm_compute. reflexivity.
Defined.

(** X11: the entrypoint of a custom graph is not checked when the graph is
    created.  A request whose entrypoint is the name of none of its nodes
    is answered like any other; a synchronous run of the graph then fails
    in its first pass with the node-not-found [KeyError], uncaught, after
    the initial state was copied, and stays stored as running. *)
Theorem unknown_entrypoint_is_accepted uid template name ns es ep s :
  template ≠ Some "code_review_agent" →
  ns ≠ [] → es ≠ [] → ep ≠ "" →
  (∀ n, n ∈ ns → NodeConfig.name n ≠ ep) →
  ∃ s1,
    create_graph uid
      (GraphCreateRequest.mk template name (Some ns) (Some es) (Some ep)) s
      = (Respond (GraphCreateResponse.mk uid), s1) ∧
    ∀ depth r run_id initial_state w state0 w0,
      deepcopy depth initial_state w = (Ok state0, w0) →
      ∃ s2,
        run_graph_sync depth r run_id
          (GraphRunRequest.mk uid initial_state) s1 w =
          ((Uncaught (KeyError ("Node '" +:+ ep
                                +:+ "' not found in graph")), s2), w0) ∧
        get_graph_state run_id s2 =
          Respond (GraphRun.mk run_id uid running initial_state [] None).
Proof.
  intros Ht Hns Hes Hep Hnone.
  pose proof (create_graph_custom uid template name ns es ep s
                Ht Hns Hes Hep) as Hcreate.
  eexists. split; [exact Hcreate|]. simpl.
  intros depth r run_id initial_state w state0 w0 Hcopy.
  set (graph := Graph.mk uid name ep (node_map ns) es).
  assert (Hnode : node_map ns !! ep = None).
  { destruct (node_map ns !! ep) as [n|] eqn:Hn; [|done].
    apply node_map_named in Hn as [Hname Hin]. by destruct (Hnone n Hin). }
  assert (Hrun : run_graph depth r graph initial_state 1000 w =
                 (Raise (KeyError ("Node '" +:+ ep
                                   +:+ "' not found in graph")), w0)).
  { unfold run_graph. rewrite (bind_ok _ _ _ _ _ Hcopy).
    replace (Z.to_nat 1000) with (S 999) by reflexivity.
    apply run_loop_raise. unfold loop_body, graph. simpl.
    by rewrite Hnode. }
  eexists. unfold run_graph_sync. simpl. rewrite lookup_insert_eq.
  fold graph. rewrite Hrun. split; [done|].
  unfold get_graph_state. simpl. by rewrite lookup_insert_eq.
Qed.

Lemma unknown_entrypoint_is_accepted_witness :
  ∃ s1,
    create_graph "id-3"
      (GraphCreateRequest.mk None None (Some [node_A])
         (Some [EdgeConfig.mk "A" "__end__" None None VNone])
         (Some "start")) (Stores ∅ ∅)
      = (Respond (GraphCreateResponse.mk "id-3"), s1) ∧
    ∃ s2,
      run_graph_sync 8 one_node_registry "run-2"
        (GraphRunRequest.mk "id-3" (VRef 0%nat)) s1 (World [ODict ∅] 0) =
        ((Uncaught (KeyError "Node 'start' not found in graph"), s2),
         World [ODict ∅; ODict ∅] 0) ∧
      get_graph_state "run-2" s2 =
        Respond (GraphRun.mk "run-2" "id-3" running (VRef 0%nat) [] None).
Proof.
  destruct (unknown_entrypoint_is_accepted "id-3" None None [node_A]
              [EdgeConfig.mk "A" "__end__" None None VNone] "start"
              (Stores ∅ ∅)) as (s1 & Hcreate & Hrun);
    [discriminate | discriminate | discriminate | discriminate | |].
  - intros n Hn. apply list_elem_of_singleton in Hn as ->. discriminate.
  - exists s1. split; [exact Hcreate|].
    exact (Hrun 8%nat one_node_registry "run-2" (VRef 0%nat)
             (World [ODict ∅] 0) (VRef 1%nat) (World [ODict ∅; ODict ∅] 0)
             (deepcopy_empty_dict 7 0 [ODict ∅] 0 eq_refl)).
Defined.

(** ** main.py: background runs *)

Lemma background_step depth r is_Exception str_exc graph_id initial_state
    run_id s w run :
  RUNS s !! run_id = Some run →
  let attempt :=
    match GRAPHS s !! graph_id with
    | None => (Raise (KeyError graph_id), w)
    | Some graph => run_graph depth r graph initial_state 1000 w
    end in
  let store run' := Stores (GRAPHS s) (<[run_id := run']> (RUNS s)) in
  _execute_graph_background depth r is_Exception str_exc graph_id
    initial_state run_id s w =
  match attempt with
  | (Ok (final_state, logs), w') =>
      ((Ok tt,
        store (GraphRun.mk (GraphRun.id run) (GraphRun.graph_id run)
                 completed final_state logs (GraphRun.error run))), w')
  | (Raise e, w') =>
      if is_Exception e then
        ((Ok tt,
          store (GraphRun.mk (GraphRun.id run) (GraphRun.graph_id run)
                   failed (GraphRun.state run) (GraphRun.logs run)
                   (Some (str_exc e)))), w')
      else
        ((Raise e,
          store (GraphRun.mk (GraphRun.id run) (GraphRun.graph_id run)
                   running (GraphRun.state run) (GraphRun.logs run)
                   (GraphRun.error run))), w')
  end.
Proof. intros Hrun. unfold _execute_graph_background. by rewrite Hrun. Qed.

(** X12: a background run settles.  For a run that is in [RUNS], and when
    the errors raised are instances of [Exception], the task never raises
    and leaves the run completed, with the final state and the records of
    the run, or failed, with the text of the error and the state and
    records it had; a graph id that is not in [GRAPHS] makes it failed,
    too.  The other runs and the graphs are as before.  For a run that is
    not in [RUNS] the task raises the [KeyError] and changes nothing. *)
Theorem background_run_settles depth r is_Exception str_exc graph_id
    initial_state run_id s w :
  (RUNS s !! run_id = None →
   _execute_graph_background depth r is_Exception str_exc graph_id
     initial_state run_id s w = ((Raise (KeyError run_id), s), w)) ∧
  (∀ run,
     RUNS s !! run_id = Some run →
     (∀ e, is_Exception e = true) →
     ∃ s' w' run',
       _execute_graph_background depth r is_Exception str_exc graph_id
         initial_state run_id s w = ((Ok tt, s'), w') ∧
       GRAPHS s' = GRAPHS s ∧
       (∀ other, other ≠ run_id → RUNS s' !! other = RUNS s !! other) ∧
       RUNS s' !! run_id = Some run' ∧
       GraphRun.id run' = GraphRun.id run ∧
       GraphRun.graph_id run' = GraphRun.graph_id run ∧
       ((GraphRun.status run' = completed ∧
         GraphRun.error run' = GraphRun.error run ∧
         ∃ graph,
           GRAPHS s !! graph_id = Some graph ∧
           run_graph depth r graph initial_state 1000 w =
             (Ok (GraphRun.state run', GraphRun.logs run'), w')) ∨
        (GraphRun.status run' = failed ∧
         GraphRun.state run' = GraphRun.state run ∧
         GraphRun.logs run' = GraphRun.logs run ∧
         ∃ e,
           GraphRun.error run' = Some (str_exc e) ∧
           match GRAPHS s !! graph_id with
           | None => e = KeyError graph_id ∧ w' = w
           | Some graph =>
               run_graph depth r graph initial_state 1000 w = (Raise e, w')
           end))).
Proof.
  split.
  - intros Hrun. unfold _execute_graph_background. by rewrite Hrun.
  - intros run Hrun Hexc.
    rewrite (background_step _ _ _ _ _ _ _ _ _ _ Hrun).
    destruct (GRAPHS s !! graph_id) as [graph|] eqn:Hgraph.
    + destruct (run_graph depth r graph initial_state 1000 w)
        as [[[final_state logs]|e] w'] eqn:Hres.
      * eexists _, _, _. split_and!; [done | done | | apply lookup_insert_eq
                                     | done | done |].
        { intros other Hne. simpl. by rewrite lookup_insert_ne. }
        left. split_and!; [done | done |]. by exists graph.
      * rewrite Hexc.
        eexists _, _, _. split_and!; [done | done | | apply lookup_insert_eq
                                     | done | done |].
        { intros other Hne. simpl. by rewrite lookup_insert_ne. }
        right. split_and!; [done | done | done |]. by exists e.
    + rewrite Hexc.
      eexists _, _, _. split_and!; [done | done | | apply lookup_insert_eq
                                   | done | done |].
      { intros other Hne. simpl. by rewrite lookup_insert_ne. }
      right. split_and!; [done | done | done |]. by exists (KeyError graph_id).
Qed.

Lemma background_run_settles_witness :
  let run := GraphRun.mk "run-3" "g2" pending (VRef 0%nat) [] None in
  let s := Stores (<["g2" := score_graph]> ∅) (<["run-3" := run]> ∅) in
  ∃ s' w',
    _execute_graph_background 8 one_node_registry (λ _, true)
      (λ e, match e with Exn _ msg => msg end)
      "g2" (VRef 0%nat) "run-3" s (World [ODict ∅] 0) = ((Ok tt, s'), w') ∧
    get_graph_state "run-3" s' =
      Respond (GraphRun.mk "run-3" "g2" failed (VRef 0%nat) []
        (Some "'<' not supported between instances of 'NoneType' and 'int'")).
Proof.
  intros run s.
  destruct (proj2 (background_run_settles 8 one_node_registry (λ _, true)
              (λ e, match e with Exn _ msg => msg end)
              "g2" (VRef 0%nat) "run-3" s (World [ODict ∅] 0))
              run eq_refl (λ _, eq_refl))
    as (s' & w' & run' & Hrun & _ & _ & Hlook & Hid & Hgid & Hcases).
  exists s', w'. split; [exact Hrun|].
  unfold get_graph_state. rewrite Hlook. f_equal.
  destruct run' as [id gid status state logs error]. simpl in *.
  destruct Hcases as [(_ & _ & graph & Hg & Hok)|(-> & -> & -> & e & -> & He)].
  - injection Hg as <-. vm_compute in Hok. discriminate.
  - vm_compute in He. injection He as <- _. by subst.
Defined.

(** X13: an asynchronous run.  For a graph of [GRAPHS],
    [run_graph_async] answers ["running"] at once, stores the run as
    pending and schedules one task for it; once the task has run (the
    errors raised being instances of [Exception]) the run is completed or
    failed, and no longer pending or running.  An unknown graph id is
    answered with status 404, and nothing is stored or scheduled. *)
Theorem async_run_settles depth r is_Exception str_exc run_id payload
    background_tasks s w :
  let graph_id := GraphRunRequest.graph_id payload in
  let initial_state := GraphRunRequest.initial_state payload in
  (GRAPHS s !! graph_id = None →
   run_graph_async run_id payload background_tasks s =
     (HTTPException 404 "Graph not found", background_tasks, s)) ∧
  (∀ graph,
     GRAPHS s !! graph_id = Some graph →
     (∀ e, is_Exception e = true) →
     ∃ s1,
       run_graph_async run_id payload background_tasks s =
         (Respond (GraphRunAsyncResponse.mk run_id "running"),
          background_tasks ++ [Task (Graph.id graph) initial_state run_id],
          s1) ∧
       get_graph_state run_id s1 =
         Respond (GraphRun.mk run_id (Graph.id graph) pending initial_state
                    [] None) ∧
       ∃ s2 w' run',
         _execute_graph_background depth r is_Exception str_exc
           (Graph.id graph) initial_state run_id s1 w = ((Ok tt, s2), w') ∧
         get_graph_state run_id s2 = Respond run' ∧
         (GraphRun.status run' = completed ∨ GraphRun.status run' = failed)).
Proof.
  intros graph_id initial_state. unfold run_graph_async.
  fold graph_id initial_state. split.
  - by intros ->.
  - intros graph -> Hexc. eexists. split_and!; [done| |].
    + unfold get_graph_state. simpl. by rewrite lookup_insert_eq.
    + erewrite background_step; [|simpl; apply lookup_insert_eq]. simpl.
      destruct (match GRAPHS s !! Graph.id graph with
                | Some graph0 => run_graph depth r graph0 initial_state 1000 w
                | None => (Raise (KeyError (Graph.id graph)), w)
                end) as [[[final_state logs]|e] w'].
      * eexists _, _, _. split; [done|]. split.
        -- unfold get_graph_state. simpl. by rewrite lookup_insert_eq.
        -- by left.
      * rewrite Hexc. eexists _, _, _. split; [done|]. split.
        -- unfold get_graph_state. simpl. by rewrite lookup_insert_eq.
        -- by right.
Qed.

Lemma async_run_settles_witness :
  let s := Stores (<["g1" := end_graph]> ∅) ∅ in
  ∃ s1 s2 w' run',
    run_graph_async "run-4" (GraphRunRequest.mk "g1" (VRef 0%nat)) [] s =
      (Respond (GraphRunAsyncResponse.mk "run-4" "running"),
       [Task "g1" (VRef 0%nat) "run-4"], s1) ∧
    _execute_graph_background 8 one_node_registry (λ _, true)
      (λ e, match e with Exn _ msg => msg end)
      "g1" (VRef 0%nat) "run-4" s1 (World [ODict ∅] 0) = ((Ok tt, s2), w') ∧
    get_graph_state "run-4" s2 = Respond run' ∧
    (GraphRun.status run' = completed ∨ GraphRun.status run' = failed).
Proof.
  intros s.
  destruct (proj2 (async_run_settles 8 one_node_registry (λ _, true)
              (λ e, match e with Exn _ msg => msg end) "run-4"
              (GraphRunRequest.mk "g1" (VRef 0%nat)) [] s
              (World [ODict ∅] 0)) end_graph eq_refl (λ _, eq_refl))
    as (s1 & Hasync & _ & s2 & w' & run' & Hbg & Hget & Hstatus).
  by exists s1, s2, w', run'.
Defined.

(** ** The built-in workflow *)

(** X14: the built-in graph and the built-in registry fit.  The
    entrypoint of the template graph is one of its nodes, every edge
    leaves a node and leads to a node or to ["__end__"], and every node
    resolves in the registry that [register_builtins] fills: the four
    COMPUTATION nodes to the node functions of their names and the TOOL
    node to the tool ["detect_smells"]. *)
Theorem template_graph_fits_builtins graph_id name
    extract_functions check_complexity detect_smells_tool
    suggest_improvements evaluate_quality r :
  let graph := create_code_review_template_graph graph_id name in
  let registry :=
    register_builtins extract_functions check_complexity detect_smells_tool
      suggest_improvements evaluate_quality r in
  is_Some (Graph.nodes graph !! Graph.entrypoint graph) ∧
  Forall (λ e, is_Some (Graph.nodes graph !! EdgeConfig.source e) ∧
               (EdgeConfig.target e = "__end__" ∨
                is_Some (Graph.nodes graph !! EdgeConfig.target e)))
         (Graph.edges graph) ∧
  (∀ k node_cfg,
     Graph.nodes graph !! k = Some node_cfg →
     ∃ fn, resolves registry node_cfg fn ∧
           fn ∈ [extract_functions; check_complexity; detect_smells_tool;
                 suggest_improvements; evaluate_quality]) ∧
  resolves registry
    (NodeConfig.mk "detect_smells" TOOL (Some "detect_smells")
       (Some "Tool node: detect simple static code smells."))
    detect_smells_tool.
Proof.
  intros graph registry. split_and!.
  - by eexists.
  - repeat (apply List.Forall_cons; [split; [by eexists|]; first
              [by left | right; by eexists]|]).
    apply List.Forall_nil.
  - intros k cfg H. simpl in H.
    repeat (apply lookup_insert_Some in H as [[<- <-]|[_ H]];
            [eexists; split;
             [unfold resolves; simpl;
              first [ apply lookup_insert_eq
                    | rewrite lookup_insert_ne by done;
                      first [ apply lookup_insert_eq
                            | rewrite lookup_insert_ne by done;
                              first [ apply lookup_insert_eq
                                    | rewrite lookup_insert_ne by done;
                                      apply lookup_insert_eq ] ]
                    | eexists; split_and!;
                      [done | done | apply lookup_insert_eq] ]
             | set_solver]|]).
    by rewrite lookup_empty in H.
  - unfold resolves. simpl. eexists. split_and!; [done | done |].
    apply lookup_insert_eq.
Qed.

(** X15: the edges of the built-in workflow.  Whatever the state, edge
    resolution in the template graph does not raise: each of the first
    four nodes leads to the next, and [evaluate_quality] leads back to
    [suggest_improvements] exactly when [meets_quality] equals [False]
    ([False] or [0]) and ends the run in every other case: when it is
    [True], and also when it is not in the state or is anything else. *)
Theorem template_graph_resolution depth h graph_id name state :
  let graph := create_code_review_template_graph graph_id name in
  choose_next_node depth h graph "extract_functions" state
    = Ok (Some "check_complexity") ∧
  choose_next_node depth h graph "check_complexity" state
    = Ok (Some "detect_smells") ∧
  choose_next_node depth h graph "detect_smells" state
    = Ok (Some "suggest_improvements") ∧
  choose_next_node depth h graph "suggest_improvements" state
    = Ok (Some "evaluate_quality") ∧
  choose_next_node depth h graph "evaluate_quality" state
    = Ok (if atom_eq (_get_from_state h state "meets_quality") (VBool false)
          then Some "suggest_improvements" else None).
Proof.
  intros graph. split_and!; try reflexivity.
  unfold choose_next_node, graph. simpl.
  change (filter _ _) with
    [EdgeConfig.mk "evaluate_quality" "suggest_improvements"
       (Some "meets_quality") (Some "==") (VBool false);
     EdgeConfig.mk "evaluate_quality" "__end__"
       (Some "meets_quality") (Some "==") (VBool true)].
  simpl. generalize (_get_from_state h state "meets_quality"). intros v.
  destruct depth, v as [| [] | n | s | l]; simpl; try done;
    repeat case_bool_decide; try done.
Qed.

Lemma template_graph_fits_builtins_witness :
  ∃ fn,
    resolves (register_builtins noop noop incr noop noop (Registry.mk ∅ ∅))
      (NodeConfig.mk "detect_smells" TOOL (Some "detect_smells")
         (Some "Tool node: detect simple static code smells.")) fn ∧
    fn ∈ [noop; noop; incr; noop; noop].
Proof.
  exact (proj1 (proj2 (proj2 (template_graph_fits_builtins "g" None
           noop noop incr noop noop (Registry.mk ∅ ∅))))
           "detect_smells" _ eq_refl).
Defined.

(** ** Snapshots of flat states *)

Lemma foldl_insert_lookup (m : gmap string val) xs k :
  foldl (λ m kv, <[kv.1 := kv.2]> m) m xs !! k =
    match last (filter (λ kv, kv.1 = k) xs) with
    | Some kv => Some kv.2
    | None => m !! k
    end.
Proof.
  revert m. induction xs as [|[k0 v0] xs IH]; intros m; simpl; [done|].
  rewrite IH. destruct (decide (k0 = k)) as [Hk|Hk].
  - rewrite filter_cons_True by done. rewrite last_cons.
    destruct (last _); [done|]. subst k. by rewrite lookup_insert_eq.
  - rewrite filter_cons_False by done.
    destruct (last _); [done|]. by rewrite lookup_insert_ne.
Qed.

Lemma foldl_insert_map_to_list (d : gmap string val) :
  foldl (λ m kv, <[kv.1 := kv.2]> m) ∅ (map_to_list d) = d.
Proof.
  apply map_eq. intros k. rewrite foldl_insert_lookup, lookup_empty.
  destruct (last (filter (λ kv, kv.1 = k) (map_to_list d)))
    as [[k' v]|] eqn:Hl.
  - apply last_Some_elem_of, list_elem_of_filter in Hl as [Hk Hin].
    simpl in Hk. subst k'. by apply elem_of_map_to_list in Hin.
  - apply last_None in Hl. destruct (d !! k) as [v|] eqn:Hv; [|done].
    assert (Hin : (k, v) ∈ filter (λ kv, kv.1 = k) (map_to_list d)).
    { apply list_elem_of_filter. split; [done|].
      by apply elem_of_map_to_list. }
    rewrite Hl in Hin. by apply not_elem_of_nil in Hin.
Qed.

Lemma deepcopy_memo_atomic depth memo v w :
  atomic v → deepcopy_memo depth memo v w = (Ok (v, memo), w).
Proof. by destruct depth, v. Qed.

Lemma copy_flat_items depth (y : loc) t xs :
  Forall (λ kv : string * val, atomic kv.2) xs →
  ∀ memo m0 h1,
    h1 !! y = Some (ODict m0) →
    foldM (λ memo kv,
             let! r := deepcopy_memo depth memo kv.2 in
             do! with_heap (setitem y kv.1 r.1) in
             ret r.2) memo xs (World h1 t) =
    (Ok memo,
     World (<[y := ODict (foldl (λ m kv, <[kv.1 := kv.2]> m) m0 xs)]> h1) t).
Proof.
  induction 1 as [|[k v] xs Hv _ IH]; intros memo m0 h1 Hy; simpl.
  - unfold ret. by rewrite list_insert_id.
  - simpl in Hv.
    rewrite (bind_ok _ _ _ _ _
               (bind_ok _ _ _ _ _ (deepcopy_memo_atomic depth memo v _ Hv))).
    unfold bind at 1. unfold with_heap at 1. unfold setitem. simpl.
    rewrite Hy. unfold ret at 1.
    rewrite (IH memo (<[k := v]> m0));
      [|apply list_lookup_insert_eq; by eapply lookup_lt_Some].
    by rewrite list_insert_insert_eq.
Qed.

Lemma deepcopy_flat depth l h t d :
  h !! l = Some (ODict d) → flat d →
  deepcopy (S depth) (VRef l) (World h t) =
    (Ok (VRef (length h)), World (h ++ [ODict d]) t).
Proof.
  intros Hl Hflat.
  assert (Hitems :
    foldM (λ memo kv,
             let! r := deepcopy_memo depth memo kv.2 in
             do! with_heap (setitem (length h) kv.1 r.1) in
             ret r.2) (<[l := length h]> ∅) (map_to_list d)
          (World (h ++ [ODict ∅]) t) =
    (Ok (<[l := length h]> ∅), World (h ++ [ODict d]) t)).
  { rewrite (copy_flat_items depth (length h) t (map_to_list d)) with (m0 := ∅).
    - rewrite foldl_insert_map_to_list.
      rewrite insert_app_r_alt by lia. by rewrite Nat.sub_diag.
    - apply Forall_forall. intros [k v] Hin. simpl.
      apply elem_of_map_to_list in Hin. by eapply Hflat.
    - by rewrite lookup_app_r, Nat.sub_diag. }
  assert (Hderef : deref l (World h t) = (Ok (ODict d), World h t)).
  { unfold deref, reading. simpl. by rewrite Hl. }
  assert (Hmemo : deepcopy_memo (S depth) ∅ (VRef l) (World h t) =
                  (Ok (VRef (length h), <[l := length h]> ∅),
                   World (h ++ [ODict d]) t)).
  { simpl. rewrite lookup_empty. rewrite (bind_ok _ _ _ _ _ Hderef).
    erewrite bind_ok; [|reflexivity]. simpl.
    by rewrite (bind_ok _ _ _ _ _ Hitems). }
  unfold deepcopy. by rewrite (bind_ok _ _ _ _ _ Hmemo).
Qed.

Lemma py_eq_atomic depth h b a :
  atomic b → py_eq depth h b a = Ok (atom_eq b a).
Proof. by destruct depth, b, a. Qed.

(** X16: the diff of a pass is taken against the state as it was when the
    pass began.  For a flat state map [d] (no nested lists or dicts), the
    snapshot is a new dict with the entries of [d]; and whatever state map
    the node leaves, as long as the snapshot is still what it was, the
    diff has [{"before": d.get(k), "after": after.get(k)}] exactly for the
    keys whose value is not equal to the one in [d], and no comparison
    raises. *)
Theorem snapshot_then_diff depth l h t d :
  h !! l = Some (ODict d) → flat d →
  deepcopy (S depth) (VRef l) (World h t) =
    (Ok (VRef (length h)), World (h ++ [ODict d]) t) ∧
  ∀ h2 t2 state' ma,
    closed h2 →
    h2 !! length h = Some (ODict d) →
    as_dict h2 state' = Some ma →
    ∃ md h3,
      compute_diff (S depth) (VRef (length h)) state' (World h2 t2) =
        (Ok (VRef (length h2)), World h3 t2) ∧
      agree_below (length h2) h2 h3 ∧
      h3 !! length h2 = Some (ODict md) ∧
      ∀ k,
        (atom_eq (dict_get d k) (dict_get ma k) = false →
         ∃ le, md !! k = Some (VRef le) ∧
               h3 !! le
                 = Some (diff_entry (dict_get d k) (dict_get ma k))) ∧
        (atom_eq (dict_get d k) (dict_get ma k) = true → md !! k = None).
Proof.
  intros Hl Hflat. split; [by apply deepcopy_flat|].
  intros h2 t2 state' ma Hcl Hsnap Hafter.
  assert (Hatomic : ∀ k, atomic (dict_get d k)).
  { intros k. unfold dict_get. destruct (d !! k) as [v|] eqn:Hk; [|done].
    by eapply Hflat. }
  destruct (compute_diff_spec (S depth) h2 t2 (VRef (length h)) state' d ma
              (λ k, atom_eq (dict_get d k) (dict_get ma k)) Hcl)
    as (md & h3 & Hrun & Hag & Hld & Hk).
  - simpl. by rewrite Hsnap.
  - done.
  - intros k _. by apply py_eq_atomic.
  - exists md, h3. split_and!; [done | done | done |].
    intros k. destruct (Hk k) as [Hin Hout]. split.
    + intros Hne. apply Hin; [|done].
      destruct (decide (k ∈ dom d ∪ dom ma)) as [|Hnin]; [done|].
      apply not_elem_of_union in Hnin as [Hd Hma].
      apply not_elem_of_dom in Hd, Hma. unfold dict_get in Hne.
      by rewrite Hd, Hma in Hne.
    + intros Heq. apply Hout. by right.
Qed.

Lemma snapshot_then_diff_witness :
  let d : gmap string val := <["n" := VInt 1]> ∅ in
  let h2 := [ODict (<["n" := VInt 2]> ∅); ODict d] in
  deepcopy 8 (VRef 0%nat) (World [ODict d] 0) =
    (Ok (VRef 1%nat), World [ODict d; ODict d] 0) ∧
  ∃ md h3 le,
    compute_diff 8 (VRef 1%nat) (VRef 0%nat) (World h2 0) =
      (Ok (VRef 2%nat), World h3 0) ∧
    h3 !! 2%nat = Some (ODict md) ∧
    md !! "n" = Some (VRef le) ∧
    h3 !! le = Some (diff_entry (VInt 1) (VInt 2)).
Proof.
  intros d h2.
  assert (Hflat : flat d).
  { intros k v Hk. apply lookup_insert_Some in Hk as [[_ <-]|[_ Hk]]; [done|].
    by rewrite lookup_empty in Hk. }
  destruct (snapshot_then_diff 7 0 [ODict d] 0 d eq_refl Hflat)
    as [Hcopy Hdiff].
  split; [exact Hcopy|].
  destruct (Hdiff h2 0 (VRef 0%nat) (<["n" := VInt 2]> ∅))
    as (md & h3 & Hrun & _ & Hld & Hk).
  - intros l o v Hl Hc.
    destruct l as [|[|l]]; simpl in Hl; [| |done]; injection Hl as <-;
      destruct Hc as [k Hk];
      (apply lookup_insert_Some in Hk as [[_ <-]|[_ Hk]];
       [done | by rewrite lookup_empty in Hk]).
  - reflexivity.
  - reflexivity.
  - destruct (proj1 (Hk "n") eq_refl) as (le & Hle & Hentry).
    by exists md, h3, le.
Defined.

(** ** Dispatch *)

Lemma bind_ret_r {A} (m : M A) w : bind m ret w = m w.
Proof. unfold bind, ret. by destruct (m w) as [[a|e] w']. Qed.

(** X17: the dispatch of [execute_node].  A COMPUTATION node runs the node
    function registered under its name, whatever its tool name and the
    tool registry are; a TOOL node runs the tool registered under its tool
    name, whatever its own name and the node registry are; in both cases
    the result is that of the adapter called on the same state. *)
Theorem execute_node_dispatch depth r node_cfg fn state w :
  resolves r node_cfg fn →
  execute_node depth r node_cfg state w = call_maybe_async fn state w.
Proof.
  intros Hres. rewrite (execute_node_resolved _ _ _ _ _ _ Hres).
  apply bind_ret_r.
Qed.

Lemma execute_node_dispatch_witness :
  let r := register_tool "lint" (setter "x" (VInt 1))
             (register_node "U" failing (Registry.mk ∅ ∅)) in
  execute_node 8 r tool_U (VRef 0%nat) (World [ODict ∅] 0) =
    (Ok (VRef 0%nat), World [ODict (<["x" := VInt 1]> ∅)] 0).
Proof.
  intros r.
  rewrite (execute_node_dispatch 8 r tool_U (setter "x" (VInt 1))
             (VRef 0%nat) (World [ODict ∅] 0)).
  - vm_compute. reflexivity.
  - exists "lint". split_and!; [reflexivity | discriminate | reflexivity].
Defined.

Lemma execute_node_inv depth r node_cfg state w v w' :
  execute_node depth r node_cfg state w = (Ok v, w') →
  ∃ fn,
    ((∃ name, Registry.NODE_REGISTRY r !! name = Some fn) ∨
     (∃ name, Registry.TOOL_REGISTRY r !! name = Some fn)) ∧
    call_maybe_async fn state w = (Ok v, w').
Proof.
  unfold execute_node. intros H.
  apply bind_inv in H as (fn & w1 & Hfn & H).
  rewrite bind_ret_r in H. exists fn.
  destruct (NodeConfig.type node_cfg).
  - unfold lift, get_node in Hfn.
    destruct (Registry.NODE_REGISTRY r !! NodeConfig.name node_cfg)
      as [fn'|] eqn:Hlook; [|done].
    injection Hfn as <- <-. split; [left; by eexists | done].
  - destruct (negb (truthy (NodeConfig.tool_name node_cfg))); [done|].
    unfold lift, get_tool in Hfn.
    destruct (Registry.TOOL_REGISTRY r !! _) as [fn'|] eqn:Hlook; [|done].
    injection Hfn as <- <-. split; [right; by eexists | done].
Qed.

Lemma loop_body_state depth r graph c state logs w state' logs' next w' :
  loop_body depth r graph c state logs w = (Ok (state', logs', next), w') →
  ∃ node_cfg w1 w2,
    execute_node depth r node_cfg state w1 = (Ok state', w2).
Proof.
  unfold loop_body. destruct (Graph.nodes graph !! c) as [cfg|]; [|done].
  intros H.
  apply bind_inv in H as (before & w1 & _ & H).
  apply bind_inv in H as (started & w2 & Hnow & H).
  apply bind_inv in H as (st & w3 & Hexec & H).
  apply bind_inv in H as (finished & w4 & _ & H).
  apply bind_inv in H as (diff & w5 & _ & H).
  apply bind_inv in H as (cur & w6 & _ & H).
  injection H as <- <- <- <-. by exists cfg, w2, w3.
Qed.

Lemma run_loop_in_place depth r graph budget :
  in_place_registry r →
  ∀ state0 logs0 current w state logs w',
    run_loop depth r graph budget state0 logs0 current w
      = (Ok (state, logs), w') →
    state = state0.
Proof.
  intros Hr. induction budget as [|budget IH];
    intros state0 logs0 current w state logs w' H.
  - rewrite run_loop_exhausted in H. by injection H as <- <- <-.
  - destruct current as [c|].
    + simpl in H. apply bind_inv in H as ([[st1 logs1] next] & w2 & Hbody & H).
      simpl in H. apply IH in H. subst state.
      apply loop_body_state in Hbody as (cfg & wa & wb & Hexec).
      apply execute_node_inv in Hexec as (fn & Hreg & Hcall).
      by eapply Hr.
    + rewrite run_loop_done in H. by injection H as <- <- <-.
Qed.

(** X18: one state object through the run.  When every registered function
    follows the in-place convention (it returns nothing, or the state it
    was given), the state that [run_graph] returns is the very copy of the
    initial state that it made at the start. *)
Theorem in_place_run_keeps_one_state depth r graph initial_state max_steps
    w state0 w0 state logs w' :
  in_place_registry r →
  deepcopy depth initial_state w = (Ok state0, w0) →
  run_graph depth r graph initial_state max_steps w
    = (Ok (state, logs), w') →
  state = state0.
Proof.
  intros Hr Hcopy. unfold run_graph. rewrite (bind_ok _ _ _ _ _ Hcopy).
  by apply run_loop_in_place.
Qed.

Lemma in_place_run_keeps_one_state_witness :
  ∃ logs w',
    run_graph 8 idle_registry cycle_graph (VRef 0%nat) 4 (World [ODict ∅] 0)
      = (Ok (VRef 1%nat, logs), w').
Proof.
  destruct (run_graph 8 idle_registry cycle_graph (VRef 0%nat) 4
              (World [ODict ∅] 0)) as [[[state logs]|e] w'] eqn:Hrun;
    [|by vm_compute in Hrun].
  exists logs, w'. f_equal. f_equal. f_equal.
  refine (in_place_run_keeps_one_state 8 idle_registry cycle_graph
            (VRef 0%nat) 4 (World [ODict ∅] 0) (VRef 1%nat)
            (World [ODict ∅; ODict ∅] 0) state logs w' _ _ Hrun).
  - intros fn Hfn state1 w1 v w1' Hcall.
    assert (fn = noop) as ->.
    { destruct Hfn as [[name Hfn]|[name Hfn]]; simpl in Hfn.
      - apply lookup_insert_Some in Hfn as [[_ <-]|[_ Hfn]]; [done|].
        apply lookup_insert_Some in Hfn as [[_ <-]|[_ Hfn]]; [done|].
        by rewrite lookup_empty in Hfn.
      - by rewrite lookup_empty in Hfn. }
    by injection Hcall as <- _.
  - exact (deepcopy_empty_dict 7 0 [ODict ∅] 0 eq_refl).
Defined.

(** ** The failures of a run *)

Lemma bind_raise_inv {A B} (m : M A) (f : A → M B) w e w' :
  bind m f w = (Raise e, w') →
  m w = (Raise e, w') ∨ ∃ a w1, m w = (Ok a, w1) ∧ f a w1 = (Raise e, w').
Proof.
  unfold bind. destruct (m w) as [[a|e0] w1]; intros H.
  - right. by exists a, w1.
  - left. by injection H as -> ->.
Qed.

Lemma call_maybe_async_raise_inv fn state w e w' :
  call_maybe_async fn state w = (Raise e, w') → fails_with fn state w e w'.
Proof.
  unfold call_maybe_async. intros H.
  apply bind_raise_inv in H as [H|(v & w1 & _ & H)]; [|by destruct v].
  destruct fn as [f|f]; simpl; [|done].
  apply bind_raise_inv in H as [H|([v|c] & w1 & Hf & H)]; [by left|done|].
  right. by exists c, w1.
Qed.

Lemma execute_node_raise_inv depth r graph current node_cfg state w e w' :
  Graph.nodes graph !! current = Some node_cfg →
  execute_node depth r node_cfg state w = (Raise e, w') →
  run_failure depth r graph e w'.
Proof.
  intros Hnode. unfold execute_node. intros H.
  apply bind_raise_inv in H as [H|(fn & w1 & Hfn & H)].
  - destruct (NodeConfig.type node_cfg) eqn:Hty.
    + unfold lift, get_node in H.
      destruct (Registry.NODE_REGISTRY r !! NodeConfig.name node_cfg)
        as [fn|] eqn:Hreg; [done|].
      injection H as <- <-. by eapply failure_node_not_registered.
    + destruct (truthy (NodeConfig.tool_name node_cfg)) eqn:Htool; simpl in H.
      * destruct (NodeConfig.tool_name node_cfg) as [t|] eqn:Ht; [|done].
        simpl in Htool, H. apply negb_true_iff, bool_decide_eq_false in Htool.
        unfold lift, get_tool in H.
        destruct (Registry.TOOL_REGISTRY r !! t) as [fn|] eqn:Hreg; [done|].
        injection H as <- <-. by eapply failure_tool_not_registered.
      * injection H as <- <-. by eapply failure_missing_tool_name.
  - rewrite bind_ret_r in H. apply call_maybe_async_raise_inv in H.
    assert (Hres : resolves r node_cfg fn ∧ w1 = w).
    { unfold resolves. destruct (NodeConfig.type node_cfg).
      - unfold lift, get_node in Hfn.
        destruct (Registry.NODE_REGISTRY r !! NodeConfig.name node_cfg)
          as [fn'|] eqn:Hreg; [|done].
        by injection Hfn as <- <-.
      - destruct (truthy (NodeConfig.tool_name node_cfg)) eqn:Htool;
          simpl in Hfn; [|done].
        destruct (NodeConfig.tool_name node_cfg) as [t|] eqn:Ht; [|done].
        simpl in Htool, Hfn.
        apply negb_true_iff, bool_decide_eq_false in Htool.
        unfold lift, get_tool in Hfn.
        destruct (Registry.TOOL_REGISTRY r !! t) as [fn'|] eqn:Hreg; [|done].
        injection Hfn as <- <-. split; [|done]. by exists t. }
    destruct Hres as [Hres ->]. by eapply failure_step.
Qed.

Lemma loop_body_raise_inv depth r graph current state logs w e w' :
  loop_body depth r graph current state logs w = (Raise e, w') →
  run_failure depth r graph e w'.
Proof.
  unfold loop_body.
  destruct (Graph.nodes graph !! current) as [node_cfg|] eqn:Hnode.
  - intros H.
    apply bind_raise_inv in H as [H|(before & w1 & _ & H)];
      [by eapply failure_copy|].
    apply bind_raise_inv in H as [H|(started & w2 & Hnow & H)]; [done|].
    apply bind_raise_inv in H as [H|(state' & w3 & _ & H)];
      [by eapply execute_node_raise_inv|].
    apply bind_raise_inv in H as [H|(finished & w4 & _ & H)]; [done|].
    apply bind_raise_inv in H as [H|(diff & w5 & _ & H)];
      [by eapply failure_diff|].
    apply bind_raise_inv in H as [H|(next & w6 & _ & H)]; [|done].
    unfold reading in H. injection H as H <-. by eapply failure_condition.
  - intros [= <- <-]. by eapply failure_node_not_found.
Qed.

Lemma run_loop_raise_inv depth r graph budget :
  ∀ state logs current w e w',
    run_loop depth r graph budget state logs current w = (Raise e, w') →
    run_failure depth r graph e w'.
Proof.
  induction budget as [|budget IH]; intros state logs current w e w' H.
  - by rewrite run_loop_exhausted in H.
  - destruct current as [c|]; [|by rewrite run_loop_done in H].
    simpl in H. apply bind_raise_inv in H as [H|(step & w1 & _ & H)].
    + by eapply loop_body_raise_inv.
    + by eapply IH.
Qed.

(** C4 (as amended): the failures of a run.  A current node that is not in
    [graph.nodes] raises the node-not-found [KeyError] before anything is
    run or recorded in that pass; a TOOL node without a tool name raises
    the missing-tool-name [ValueError]; a COMPUTATION node whose name, or a
    TOOL node whose tool name, is not registered raises the registry's
    [KeyError] with the key; an error raised by the step implementation is
    the error of [execute_node]; and an error of [execute_node] is the
    error of the run, which returns no result.  These are not all the
    failures of a run: it also fails with the errors of the engine's own
    operations on the state, the copy of the state, the diff and the
    condition of an edge; and every failure of [run_graph] is one of the
    three named ones, an error of a step implementation, or an error of
    one of these operations. *)
Theorem run_graph_failures :
  (∀ depth r graph budget current state logs w,
     Graph.nodes graph !! current = None →
     run_loop depth r graph (S budget) state logs (Some current) w =
       (Raise (KeyError ("Node '" +:+ current +:+ "' not found in graph")),
        w)) ∧
  (∀ depth r node_cfg state w,
     NodeConfig.type node_cfg = TOOL →
     NodeConfig.tool_name node_cfg = None →
     execute_node depth r node_cfg state w =
       (Raise (ValueError ("Tool node '" +:+ NodeConfig.name node_cfg
                           +:+ "' missing 'tool_name'")), w)) ∧
  (∀ depth r node_cfg state w,
     NodeConfig.type node_cfg = COMPUTATION →
     Registry.NODE_REGISTRY r !! NodeConfig.name node_cfg = None →
     execute_node depth r node_cfg state w =
       (Raise (KeyError ("Node function '" +:+ NodeConfig.name node_cfg
                         +:+ "' is not registered")), w)) ∧
  (∀ depth r node_cfg t state w,
     NodeConfig.type node_cfg = TOOL →
     NodeConfig.tool_name node_cfg = Some t → t ≠ "" →
     Registry.TOOL_REGISTRY r !! t = None →
     execute_node depth r node_cfg state w =
       (Raise (KeyError ("Tool '" +:+ t +:+ "' is not registered")), w)) ∧
  (∀ depth r node_cfg fn state w e w',
     resolves r node_cfg fn →
     fails_with fn state w e w' →
     execute_node depth r node_cfg state w = (Raise e, w')) ∧
  (∀ depth r graph budget current node_cfg state logs w before w1 e w2,
     Graph.nodes graph !! current = Some node_cfg →
     deepcopy depth state w = (Ok before, w1) →
     execute_node depth r node_cfg state w1 = (Raise e, w2) →
     run_loop depth r graph (S budget) state logs (Some current) w =
       (Raise e, w2)) ∧
  (∀ depth r graph initial_state max_steps w e w',
     run_graph depth r graph initial_state max_steps w = (Raise e, w') →
     run_failure depth r graph e w').
Proof.
  split_and!.
  - intros depth r graph budget current state logs w Hnode.
    apply run_loop_raise. unfold loop_body. by rewrite Hnode.
  - intros depth r node_cfg state w Hty Hname. unfold execute_node.
    by rewrite Hty, Hname.
  - intros depth r node_cfg state w Hty Hreg. unfold execute_node, get_node.
    by rewrite Hty, Hreg.
  - intros depth r node_cfg t state w Hty Hname Hne Hreg.
    unfold execute_node, get_tool. rewrite Hty, Hname. simpl.
    rewrite bool_decide_false by done. simpl. by rewrite Hreg.
  - intros depth r node_cfg fn state w e w' Hres Hfail.
    rewrite (execute_node_resolved _ _ _ _ _ _ Hres).
    by rewrite (bind_raise _ _ _ _ _ (call_maybe_async_fails _ _ _ _ _ Hfail)).
  - intros depth r graph budget current node_cfg state logs w before w1 e w2
      Hnode Hcopy Hexec.
    apply run_loop_raise. by eapply loop_body_execute_raise.
  - intros depth r graph initial_state max_steps w e w' H.
    unfold run_graph in H.
    apply bind_raise_inv in H as [H|(state & w1 & _ & H)].
    + by eapply failure_copy.
    + by eapply run_loop_raise_inv.
Qed.

Lemma run_graph_failures_witness :
  run_loop 8 small_registry end_graph 3 (VRef 0%nat) [] (Some "B")
    (World [ODict ∅] 0) =
    (Raise (KeyError "Node 'B' not found in graph"), World [ODict ∅] 0) ∧
  execute_node 8 small_registry tool_T (VRef 0%nat) (World [ODict ∅] 0) =
    (Raise (ValueError "Tool node 'T' missing 'tool_name'"),
     World [ODict ∅] 0) ∧
  execute_node 8 small_registry tool_U (VRef 0%nat) (World [ODict ∅] 0) =
    (Raise (KeyError "Tool 'lint' is not registered"), World [ODict ∅] 0) ∧
  execute_node 8 small_registry node_F (VRef 0%nat) (World [ODict ∅] 0) =
    (Raise (Exn "RuntimeError" "boom"), World [ODict ∅] 0) ∧
  run_loop 8 small_registry failing_graph 3 (VRef 0%nat) [] (Some "F")
    (World [ODict ∅] 0) =
    (Raise (Exn "RuntimeError" "boom"), World [ODict ∅; ODict ∅] 0) ∧
  run_failure 8 one_node_registry score_graph
    (TypeError "'<' not supported between instances of 'NoneType' and 'int'")
    (World [ODict ∅; ODict ∅; ODict ∅; ODict ∅] 0).
Proof.
  destruct run_graph_failures as (H1 & H2 & H3 & H4 & H5 & H6 & H7).
  split_and!.
  - exact (H1 8%nat small_registry end_graph 2%nat "B" (VRef 0%nat) []
             (World [ODict ∅] 0) eq_refl).
  - exact (H2 8%nat small_registry tool_T (VRef 0%nat) (World [ODict ∅] 0)
             eq_refl eq_refl).
  - refine (H4 8%nat small_registry tool_U "lint" (VRef 0%nat)
              (World [ODict ∅] 0) eq_refl eq_refl _ eq_refl).
    discriminate.
  - refine (H5 8%nat small_registry node_F failing (VRef 0%nat)
              (World [ODict ∅] 0) _ (World [ODict ∅] 0) _ _).
    + vm_compute. reflexivity.
    + left. reflexivity.
  - refine (H6 8%nat small_registry failing_graph 2%nat "F" node_F
              (VRef 0%nat) [] (World [ODict ∅] 0) (VRef 1%nat)
              (World [ODict ∅; ODict ∅] 0) _ _ eq_refl _ _);
      vm_compute; reflexivity.
  - refine (H7 8%nat one_node_registry score_graph (VRef 0%nat) 1000
              (World [ODict ∅] 0) _ _ _).
    vm_compute. reflexivity.
Defined.

(** The three named errors and the errors of step implementations are not
    all that a run fails with: the run of the graph whose only edge asks
    for [score < 5], on the empty state and with a node function that
    never raises, fails with a [TypeError], which is none of the named
    errors. *)
Lemma run_graph_failures_counterexample :
  (run_graph 8 one_node_registry score_graph (VRef 0%nat) 1000
     (World [ODict ∅] 0)).1 =
    Raise (TypeError
      "'<' not supported between instances of 'NoneType' and 'int'") ∧
  ¬ named_failure (TypeError
      "'<' not supported between instances of 'NoneType' and 'int'") ∧
  (∀ name fn state w e w',
     Registry.NODE_REGISTRY one_node_registry !! name = Some fn ∨
     Registry.TOOL_REGISTRY one_node_registry !! name = Some fn →
     ¬ fails_with fn state w e w').
Proof.
  split_and!.
  - vm_compute. reflexivity.
  - intros [[n H]|[[n H]|[[k H]|[k H]]]]; discriminate.
  - intros name fn state w e w' [Hfn|Hfn]; simpl in Hfn.
    + apply lookup_insert_Some in Hfn as [[_ <-]|[_ Hfn]];
        [|by rewrite lookup_empty in Hfn].
      simpl. intros [H|(c & w1 & H & _)]; discriminate.
    + by rewrite lookup_empty in Hfn.
Qed.
